(** * Dapi: a dependency-injecting facade with decorators and hooks

    A shallow embedding of [DapiMixin.ts] and [createDapi.ts].

    The wrapper class built by [DapiMixin] owns a facade (one callable per
    entry of the definition's function dictionary), a registry of decorators
    and a registry of pre/post hooks.  Registration methods are modelled as
    computations over the wrapper ([Method]); calls through the facade are
    modelled as computations over the world outside the wrapper ([Call]):
    the state of user code, the record of which user functions were invoked
    with which arguments, and the promise reactions registered with [then].

    Function objects are compared by identity in the source ([indexOf]), so
    the registries hold references ([FnRef]) and the bodies of the functions
    live in a table ([Functions]).

    Scope.  Property keys range over names that [Object.prototype] does not
    define, so that [obj[key]] on a registry is an own-property lookup, and
    over names that differ from the wrapper's own fields.  User functions do
    not call back into the registration methods of the wrapper that is
    running them. *)

From Stdlib Require Import ZArith.
From stdpp Require Import gmap strings list fin_maps pretty.

#[local] Set Warnings "-register-all,-clear-no-such-hyp".
#[local] Open Scope Z_scope.

(** ** JavaScript values *)

(** A promise is represented by its fate: the state it eventually reaches. *)
Inductive value : Type :=
| VUndefined
| VNull
| VBool (b : bool)
| VNumber (n : Z)
| VNaN
| VString (s : string)
| VObject (props : list (string * value))
| VError (ctor message : string) (cause : value)
| VPromise (fate : settle)
with settle : Type :=
| Fulfils (v : value)
| Rejects (reason : value)
| Pends.

(** [!v] is [negb (truthy v)]. *)
Definition truthy (v : value) : bool :=
  match v with
  | VUndefined | VNull | VBool false | VNumber 0 | VNaN | VString EmptyString => false
  | _ => true
  end.

(** [v instanceof Promise] *)
Definition instanceof_Promise (v : value) : bool :=
  match v with VPromise _ => true | _ => false end.

(** [new TypeError(message, {cause})] *)
Definition TypeError (message : string) (cause : value) : value :=
  VError "TypeError" message cause.

(** *** Object literals and spread *)

Definition get_prop (k : string) (props : list (string * value)) : option value :=
  snd <$> List.find (fun kv => bool_decide (kv.1 = k)) props.

(** [obj[k] = v] keeps the position of an existing property. *)
Fixpoint set_prop (k : string) (v : value) (props : list (string * value))
  : list (string * value) :=
  match props with
  | [] => [(k, v)]
  | (k', v') :: rest =>
      if bool_decide (k' = k) then (k', v) :: rest else (k', v') :: set_prop k v rest
  end.

Fixpoint chars_from (i : nat) (s : string) : list (string * value) :=
  match s with
  | EmptyString => []
  | String c rest => (pretty i, VString (String c EmptyString)) :: chars_from (S i) rest
  end.

(** The own enumerable properties that [...v] copies. *)
Definition own_enumerable (v : value) : list (string * value) :=
  match v with
  | VObject props => props
  | VString s => chars_from 0 s
  | _ => []
  end.

(** [{...target, ...source}] once [target] has been copied. *)
Definition spread_into (target : list (string * value)) (source : value)
  : list (string * value) :=
  fold_left (fun acc kv => set_prop kv.1 kv.2 acc) (own_enumerable source) target.

(** ** Outcomes and the state-and-exception monad *)

Inductive Outcome (A : Type) : Type :=
| Return (a : A)
| Throw (e : value).
Arguments Return {A} a.
Arguments Throw {A} e.

Definition StateExn (S A : Type) : Type := S -> Outcome A * S.

Definition ret {S A} (a : A) : StateExn S A := fun s => (Return a, s).
Definition throw {S A} (e : value) : StateExn S A := fun s => (Throw e, s).
Definition bind {S A B} (c : StateExn S A) (k : A -> StateExn S B) : StateExn S B :=
  fun s => match c s with
           | (Return a, s') => k a s'
           | (Throw e, s') => (Throw e, s')
           end.
Definition get {S} : StateExn S S := fun s => (Return s, s).
Definition modify {S} (f : S -> S) : StateExn S unit := fun s => (Return tt, f s).

Declare Scope js_scope.
Delimit Scope js_scope with js.
Notation "'let*' x ':=' c 'in' k" := (bind c (fun x => k))
  (at level 10, x name, c at level 100, k at level 200, only parsing) : js_scope.
Notation "c ;; k" := (bind c (fun _ => k))
  (at level 100, k at level 200, right associativity, only parsing) : js_scope.
#[local] Open Scope js_scope.

(** [for (const x of xs) body(x)] *)
Fixpoint for_of {S A} (xs : list A) (body : A -> StateExn S unit) : StateExn S unit :=
  match xs with
  | [] => ret tt
  | x :: rest => body x ;; for_of rest body
  end.

(** ** Arrays of references *)

Abbreviation Key := string.
Abbreviation FnRef := nat.

(** [xs.indexOf(x)], with [-1] when [x] does not occur. *)
Fixpoint indexOf `{EqDecision A} (x : A) (xs : list A) : Z :=
  match xs with
  | [] => -1
  | y :: rest =>
      if bool_decide (y = x) then 0
      else let i := indexOf x rest in if bool_decide (i = -1) then -1 else i + 1
  end.

(** [xs.includes(x)] *)
Definition includes `{EqDecision A} (x : A) (xs : list A) : bool :=
  bool_decide (x ∈ xs).

(** [xs.splice(index, 1)] for an index in range or equal to [-1].  With
    [-1] the source removes the last element. *)
Definition splice1 {A} (index : Z) (xs : list A) : list A :=
  if bool_decide (index = -1) then removelast xs
  else delete (Z.to_nat index) xs.

(** [xs.push(x)] *)
Definition push {A} (x : A) (xs : list A) : list A := xs ++ [x].

(** ** The definition and the wrapper *)

Record DapiDefinition : Type := {
  dependencies : value;
  fns : list (Key * FnRef);
  type : string;
  name : option string
}.

Definition Object_keys {A} (o : list (Key * A)) : list Key := o.*1.
Definition Object_hasOwn {A} (o : list (Key * A)) (key : Key) : bool :=
  bool_decide (key ∈ Object_keys o).
Definition Object_get {A} (o : list (Key * A)) (key : Key) : option A :=
  snd <$> List.find (fun kv => bool_decide (kv.1 = key)) o.

Inductive hookType : Type := Pre | Post.

(** [{pre: [], post: []}], with the identity of the record: a call that
    awaits a promise keeps a reference to the [post] array it has read. *)
Record HookRecord : Type := {
  record_id : nat;
  pre : list FnRef;
  post : list FnRef
}.

(** The two closures a facade entry can hold: the direct call installed by
    [__makeFacade] and [unmakeDecorable], and the composing call installed
    by [__makeDecorable].  Both capture [key] and [command], the value of
    [fns[key]], which is [None] when that is [undefined]. *)
Inductive FacadeFn : Type :=
| Direct (key : Key) (command : option FnRef)
| Decorable (key : Key) (command : option FnRef).

#[projections(primitive)]
Record DapiWrapper : Type := {
  __definition : DapiDefinition;
  __deps : value;
  __decoratedFns : list Key;
  __facade : gmap Key FacadeFn;
  decorators : gmap Key (list FnRef);
  hooks : gmap Key HookRecord;
  (* number of hook records created so far: the next record identity *)
  allocated : nat;
  (* for a name that is not a function-map key: whether [this[name]] is a
     function, that is a method of the wrapper class or of [SuperClass] *)
  inherited_method : Key -> bool
}.

Definition with_definition (d : DapiDefinition) (w : DapiWrapper) : DapiWrapper :=
  {| __definition := d; __deps := __deps w; __decoratedFns := __decoratedFns w;
     __facade := __facade w; decorators := decorators w; hooks := hooks w;
     allocated := allocated w; inherited_method := inherited_method w |}.
Definition with_deps (v : value) (w : DapiWrapper) : DapiWrapper :=
  {| __definition := __definition w; __deps := v; __decoratedFns := __decoratedFns w;
     __facade := __facade w; decorators := decorators w; hooks := hooks w;
     allocated := allocated w; inherited_method := inherited_method w |}.
Definition with_decoratedFns (f : list Key -> list Key) (w : DapiWrapper) : DapiWrapper :=
  {| __definition := __definition w; __deps := __deps w;
     __decoratedFns := f (__decoratedFns w);
     __facade := __facade w; decorators := decorators w; hooks := hooks w;
     allocated := allocated w; inherited_method := inherited_method w |}.
Definition with_facade (f : gmap Key FacadeFn -> gmap Key FacadeFn) (w : DapiWrapper)
  : DapiWrapper :=
  {| __definition := __definition w; __deps := __deps w; __decoratedFns := __decoratedFns w;
     __facade := f (__facade w); decorators := decorators w; hooks := hooks w;
     allocated := allocated w; inherited_method := inherited_method w |}.
Definition with_decorators (f : gmap Key (list FnRef) -> gmap Key (list FnRef))
  (w : DapiWrapper) : DapiWrapper :=
  {| __definition := __definition w; __deps := __deps w; __decoratedFns := __decoratedFns w;
     __facade := __facade w; decorators := f (decorators w); hooks := hooks w;
     allocated := allocated w; inherited_method := inherited_method w |}.
Definition with_hooks (f : gmap Key HookRecord -> gmap Key HookRecord) (w : DapiWrapper)
  : DapiWrapper :=
  {| __definition := __definition w; __deps := __deps w; __decoratedFns := __decoratedFns w;
     __facade := __facade w; decorators := decorators w; hooks := f (hooks w);
     allocated := allocated w; inherited_method := inherited_method w |}.
Definition with_allocated (n : nat) (w : DapiWrapper) : DapiWrapper :=
  {| __definition := __definition w; __deps := __deps w; __decoratedFns := __decoratedFns w;
     __facade := __facade w; decorators := decorators w; hooks := hooks w;
     allocated := n; inherited_method := inherited_method w |}.
Definition set_dependencies (v : value) (d : DapiDefinition) : DapiDefinition :=
  {| dependencies := v; fns := fns d; type := type d; name := name d |}.

(** A method of the wrapper: it may update the wrapper and may throw. *)
Abbreviation Method := (StateExn DapiWrapper).

(** ** Construction *)

(** What [DapiMixin] returns: a class closed over [definition] and over the
    [dependencies] it had when the class was made. *)
Record WrapperClass : Type := {
  class_definition : DapiDefinition;
  class_dependencies : value;
  class_methods : Key -> bool
}.

(** The function map is an object by its type, so [!fns] is false. *)
Definition DapiMixin (definition : DapiDefinition) (SuperClass : Key -> bool)
  : Outcome WrapperClass :=
  if bool_decide (type definition = EmptyString) then
    Throw (TypeError "Definition must have a type"
             (VObject [("type", VString (type definition))]))
  else if negb (truthy (dependencies definition)) then
    Throw (TypeError "Definition must have dependencies"
             (VObject [("dependencies", dependencies definition)]))
  else
    Return {| class_definition := definition;
              class_dependencies := dependencies definition;
              class_methods := SuperClass |}.

Definition __makeFacade (fns : list (Key * FnRef)) : gmap Key FacadeFn :=
  fold_left (fun facade entry => <[entry.1 := Direct entry.1 (Some entry.2)]> facade) fns ∅.

(** [new Class()] *)
Definition new (c : WrapperClass) : DapiWrapper :=
  {| __definition := class_definition c;
     __deps := VObject (spread_into [] (class_dependencies c));
     __decoratedFns := [];
     __facade := __makeFacade (fns (class_definition c));
     decorators := ∅;
     hooks := ∅;
     allocated := 0;
     inherited_method := class_methods c |}.

Definition createDapi (definition : DapiDefinition) (SuperClass : Key -> bool)
  : Outcome DapiWrapper :=
  match DapiMixin definition SuperClass with
  | Return c => Return (new c)
  | Throw e => Throw e
  end.

(** ** The decorated state of a key *)

Definition __makeDecorable (key : Key) : Method unit :=
  let* w := get in
  if includes key (__decoratedFns w) || negb (Object_hasOwn (fns (__definition w)) key)
  then ret tt
  else
    let command := Object_get (fns (__definition w)) key in
    modify (with_facade <[key := Decorable key command]>) ;;
    modify (with_decoratedFns (push key)).

Definition unmakeDecorable (key : Key) : Method unit :=
  let* w := get in
  if negb (includes key (__decoratedFns w))
     || bool_decide (is_Some (decorators w !! key))
     || bool_decide (is_Some (hooks w !! key))
  then ret tt
  else
    let command := Object_get (fns (__definition w)) key in
    modify (with_facade <[key := Direct key command]>) ;;
    let* w := get in
    modify (with_decoratedFns (splice1 (indexOf key (__decoratedFns w)))).

(** ** Dependencies *)

Definition getDependencies : Method value :=
  let* w := get in ret (__deps w).

Definition setDependencies (newDeps : value) : Method unit :=
  if negb (truthy newDeps) then
    throw (TypeError "Dependencies must be defined" (VObject [("dependencies", newDeps)]))
  else
    modify (with_deps newDeps) ;;
    modify (fun w => with_definition (set_dependencies newDeps (__definition w)) w).

Definition updateDependencies (newDeps : value) : Method unit :=
  if negb (truthy newDeps) then
    throw (TypeError "Dependencies must be defined" (VObject [("dependencies", newDeps)]))
  else
    let* w := get in
    setDependencies (VObject (spread_into (spread_into [] (__deps w)) newDeps)).

Definition getDefinition : Method DapiDefinition :=
  let* w := get in ret (__definition w).

(** ** Decorators *)

(** The closures returned by [addDecorator], [addHook] and [decorateAll]. *)
Inductive Remover : Type :=
| RemoveDecorator (key : Key) (decorator : FnRef)
| RemoveHook (t : hookType) (key : Key) (hook : FnRef)
| RemoveAll (removeDecorators : list Remover).

(** [typeof this[key] === 'function']: the constructor has put a function
    under every key of the function map. *)
Definition typeof_member_is_function (w : DapiWrapper) (key : Key) : bool :=
  Object_hasOwn (fns (__definition w)) key || inherited_method w key.

(** The values of the function map are functions by their type, so the
    test [typeof fns[key] !== 'function'] adds nothing to [Object.hasOwn]. *)
Definition addDecorator (key : Key) (decorator : FnRef) : Method Remover :=
  let* w := get in
  if negb (typeof_member_is_function w key) then
    throw (TypeError "Cannot decorate non-function property" (VObject [("key", VString key)]))
  else if negb (Object_hasOwn (fns (__definition w)) key) then
    throw (TypeError "Cannot decorate non-Dapi function property"
             (VObject [("key", VString key)]))
  else
    (if bool_decide (decorators w !! key = None)
     then modify (with_decorators <[key := []]>)
     else ret tt) ;;
    modify (with_decorators (alter (push decorator) key)) ;;
    __makeDecorable key ;;
    ret (RemoveDecorator key decorator).

Definition removeDecorator (key : Key) (decorator : FnRef) : Method unit :=
  let* w := get in
  let index := indexOf decorator <$> decorators w !! key in
  match index with
  | Some i =>
      if negb (bool_decide (i = -1))
      then modify (with_decorators (alter (splice1 i) key))
      else ret tt
  | None => ret tt
  end ;;
  let* w := get in
  match decorators w !! key with
  | Some ds =>
      if bool_decide (length ds = 0%nat)
      then modify (with_decorators (delete key))
      else ret tt
  | None => ret tt
  end ;;
  unmakeDecorable key.

Fixpoint addDecorator_each (keys : list Key) (decorator : FnRef) : Method (list Remover) :=
  match keys with
  | [] => ret []
  | key :: rest =>
      let* r := addDecorator key decorator in
      let* rs := addDecorator_each rest decorator in
      ret (r :: rs)
  end.

Definition decorateAll (decorator : FnRef) : Method Remover :=
  let* w := get in
  let* removeDecorators :=
    addDecorator_each (Object_keys (fns (__definition w))) decorator in
  ret (RemoveAll removeDecorators).

(** ** Hooks *)

Definition hooks_of (t : hookType) (r : HookRecord) : list FnRef :=
  match t with Pre => pre r | Post => post r end.

Definition with_hooks_of (t : hookType) (f : list FnRef -> list FnRef) (r : HookRecord)
  : HookRecord :=
  match t with
  | Pre => {| record_id := record_id r; pre := f (pre r); post := post r |}
  | Post => {| record_id := record_id r; pre := pre r; post := f (post r) |}
  end.

Definition hookType_name (t : hookType) : string :=
  match t with Pre => "pre" | Post => "post" end.

(** What reading a property of [undefined] throws. *)
Definition cannot_read_undefined (property : string) : value :=
  TypeError ("Cannot read properties of undefined (reading '" +:+ property +:+ "')")
    VUndefined.

Definition addHook (t : hookType) (key : Key) (hook : FnRef) : Method Remover :=
  let* w := get in
  if negb (includes key (Object_keys (fns (__definition w)))) then
    throw (TypeError "Cannot hook to non-function property" (VObject [("key", VString key)]))
  else
    (if negb (bool_decide (is_Some (hooks w !! key)))
     then
       modify (with_hooks <[key := {| record_id := allocated w; pre := []; post := [] |}]>) ;;
       modify (with_allocated (S (allocated w)))
     else ret tt) ;;
    modify (with_hooks (alter (with_hooks_of t (push hook)) key)) ;;
    __makeDecorable key ;;
    ret (RemoveHook t key hook).

Definition removeHook (t : hookType) (key : Key) (hook : FnRef) : Method unit :=
  let* w := get in
  match hooks w !! key with
  | None => throw (cannot_read_undefined (hookType_name t))
  | Some r =>
      let index := indexOf hook (hooks_of t r) in
      if negb (bool_decide (index = -1))
      then modify (with_hooks (alter (with_hooks_of t (splice1 index)) key))
      else ret tt
  end ;;
  let* w := get in
  match hooks w !! key with
  | Some r =>
      if bool_decide (length (pre r) = 0%nat) && bool_decide (length (post r) = 0%nat)
      then modify (with_hooks (delete key))
      else ret tt
  | None => ret tt
  end ;;
  unmakeDecorable key.

Definition addPreHook (key : Key) (hook : FnRef) : Method Remover := addHook Pre key hook.
Definition addPostHook (key : Key) (hook : FnRef) : Method Remover := addHook Post key hook.
Definition removePreHook (key : Key) (hook : FnRef) : Method unit := removeHook Pre key hook.
Definition removePostHook (key : Key) (hook : FnRef) : Method unit := removeHook Post key hook.

(** Calling a remover.  The remover of [decorateAll] calls the removers it
    has collected, in order. *)
Fixpoint run_remover (r : Remover) : Method unit :=
  match r with
  | RemoveDecorator key decorator => removeDecorator key decorator
  | RemoveHook t key hook => removeHook t key hook
  | RemoveAll removeDecorators =>
      (fix each (rs : list Remover) : Method unit :=
         match rs with
         | [] => ret tt
         | r' :: rest => run_remover r' ;; each rest
         end) removeDecorators
  end.

(** ** Calls through the facade *)

(** What the world outside the wrapper records: each invocation of a user
    function by the wrapper, with the arguments it was given, and each
    promise that rejected with nobody holding it. *)
Inductive Event : Type :=
| CommandCalled (command : FnRef) (args : list value)
| DecoratorCalled (decorator : FnRef) (args : list value)
| HookCalled (t : hookType) (hook : FnRef) (args : list value)
| UnhandledRejection (reason : value).

(** A callback given to [then]: the promise awaited, the [post] array the
    callback iterates over (by the identity of its record) and the
    arguments it passes on. *)
Record Reaction : Type := {
  awaited : settle;
  hooked_key : Key;
  post_array : nat;
  hook_args : list value
}.

#[projections(primitive)]
Record World (U : Type) : Type := {
  user : U;
  calls : list Event;
  reactions : list Reaction
}.
Arguments user {U} _.
Arguments calls {U} _.
Arguments reactions {U} _.

Definition with_user {U} (u : U) (s : World U) : World U :=
  {| user := u; calls := calls s; reactions := reactions s |}.
Definition with_calls {U} (f : list Event -> list Event) (s : World U) : World U :=
  {| user := user s; calls := f (calls s); reactions := reactions s |}.
Definition with_reactions {U} (f : list Reaction -> list Reaction) (s : World U) : World U :=
  {| user := user s; calls := calls s; reactions := f (reactions s) |}.

(** The bodies of the user's functions.  Commands and hooks act on the
    user's own state; a decorator is also handed the callable it wraps.
    All of them receive the wrapper as [this]. *)
Class Functions : Type := {
  User : Type;
  command_body : FnRef -> DapiWrapper -> list value -> User -> Outcome value * User;
  hook_body : FnRef -> DapiWrapper -> list value -> User -> Outcome value * User;
  decorator_body :
    FnRef -> DapiWrapper -> (list value -> StateExn (World User) value) ->
    list value -> StateExn (World User) value
}.

Section Calls.
Context {F : Functions}.

Definition Call : Type -> Type := StateExn (World User).
Definition Callable : Type := list value -> Call value.

Definition record_call (e : Event) : Call unit :=
  modify (with_calls (push e)).

Definition run_user {A} (body : User -> Outcome A * User) : Call A :=
  fun s => let (o, u) := body (user s) in (o, with_user u s).

(** [command.call(this, ...args)] *)
Definition call_command (command : option FnRef) (this : DapiWrapper) : Callable :=
  fun args =>
    match command with
    | None => throw (cannot_read_undefined "call")
    | Some c => record_call (CommandCalled c args) ;; run_user (command_body c this args)
    end.

(** [hook.call(this, ...args)] *)
Definition call_hook (t : hookType) (this : DapiWrapper) (args : list value) (hook : FnRef)
  : Call unit :=
  record_call (HookCalled t hook args) ;;
  run_user (hook_body hook this args) ;;
  ret tt.

(** [decorator.bind(this, decoratedMethod)] *)
Definition bind_decorator (this : DapiWrapper) (decorator : FnRef)
  : Callable -> Callable :=
  fun decoratedMethod args =>
    record_call (DecoratorCalled decorator args) ;;
    decorator_body decorator this decoratedMethod args.

(** [promise.then(callback)] *)
Definition then_ (r : Reaction) : Call unit :=
  modify (with_reactions (push r)).

Definition __hookDecorator (this : DapiWrapper) (key : Key)
  : option (Callable -> Callable) :=
  if negb (bool_decide (is_Some (hooks this !! key))) then None
  else Some (fun method args =>
    let preHooks := pre <$> hooks this !! key in
    let postHooks := hooks this !! key in
    match preHooks with
    | Some hs => for_of hs (call_hook Pre this args)
    | None => ret tt
    end ;;
    let* result := method args in
    match postHooks with
    | Some r =>
        match result with
        | VPromise fate =>
            then_ {| awaited := fate; hooked_key := key;
                     post_array := record_id r; hook_args := args |}
        | _ => for_of (post r) (call_hook Post this args)
        end
    | None => ret tt
    end ;;
    ret result).

(** The chain [decorators.reduce(..., command.bind(this))]. *)
Definition reduce_decorators (decorators : list (Callable -> Callable))
  (bound : Callable) : Callable :=
  fold_left (fun decoratedMethod decorator => decorator decoratedMethod) decorators bound.

(** The closure installed by [__makeDecorable]. *)
Definition decorable_call (this : DapiWrapper) (key : Key) (command : option FnRef)
  (params : list value) : Call value :=
  let decoratorFns := decorators this !! key in
  let decorators := bind_decorator this <$> default [] decoratorFns in
  let hookDecorator := __hookDecorator this key in
  let decorators :=
    match hookDecorator with
    | Some hd => hd :: decorators
    | None => decorators
    end in
  if bool_decide (length decorators = 0%nat) then
    call_command command this (__deps this :: params)
  else
    match command with
    | None => throw (cannot_read_undefined "bind")
    | Some _ =>
        reduce_decorators decorators (call_command command this) (__deps this :: params)
    end.

Definition call_facade (this : DapiWrapper) (f : FacadeFn) (params : list value)
  : Call value :=
  match f with
  | Direct key command => call_command command this (__deps this :: params)
  | Decorable key command => decorable_call this key command params
  end.

(** [this[key](...params)]: the arrow function the constructor installs
    looks the facade up when it is called. *)
Definition call (this : DapiWrapper) (key : Key) (params : list value) : Call value :=
  match __facade this !! key with
  | Some f => call_facade this f params
  | None => throw (TypeError "this.__facade[key] is not a function" VUndefined)
  end.

(** *** Promise reactions *)

(** The contents of the [post] array a reaction holds.  Once its record
    has been deleted the array is empty and out of reach of [addHook]. *)
Definition post_array_contents (this : DapiWrapper) (r : Reaction) : list FnRef :=
  match hooks this !! hooked_key r with
  | Some rec => if bool_decide (record_id rec = post_array r) then post rec else []
  | None => []
  end.

(** The callback runs when the promise fulfils; when it rejects, the
    promise made by [then] rejects with the same reason. *)
Definition run_reaction (this : DapiWrapper) (r : Reaction) : Call unit :=
  match awaited r with
  | Fulfils _ => for_of (post_array_contents this r) (call_hook Post this (hook_args r))
  | Rejects reason => throw reason
  | Pends => ret tt
  end.

Definition is_pending (r : Reaction) : bool :=
  match awaited r with Pends => true | _ => false end.

(** Every promise reaches its fate and the job queue runs the reactions
    in the order of their registration.  Nothing holds the promise made
    by [then], so its rejection is unhandled. *)
Definition settle_promises (this : DapiWrapper) (s : World User) : World User :=
  fold_left
    (fun s r =>
       match run_reaction this r s with
       | (Return _, s') => s'
       | (Throw e, s') => with_calls (push (UnhandledRejection e)) s'
       end)
    (reactions s)
    (with_reactions (filter (fun r => is_pending r = true)) s).

End Calls.

(** ** Sequences of registration calls *)

(** The registration calls a client can make, removers included. *)
Inductive Operation : Type :=
| OpAddDecorator (key : Key) (decorator : FnRef)
| OpRemoveDecorator (key : Key) (decorator : FnRef)
| OpDecorateAll (decorator : FnRef)
| OpAddHook (t : hookType) (key : Key) (hook : FnRef)
| OpRemoveHook (t : hookType) (key : Key) (hook : FnRef)
| OpRemover (r : Remover).

Definition run_operation (op : Operation) : Method unit :=
  match op with
  | OpAddDecorator key decorator => addDecorator key decorator ;; ret tt
  | OpRemoveDecorator key decorator => removeDecorator key decorator
  | OpDecorateAll decorator => decorateAll decorator ;; ret tt
  | OpAddHook t key hook => addHook t key hook ;; ret tt
  | OpRemoveHook t key hook => removeHook t key hook
  | OpRemover r => run_remover r
  end.

Definition run_operations (ops : list Operation) : Method unit :=
  for_of ops run_operation.

(** ** A small program to run the model on *)

Module Sample.

(** Commands: [0] is [(deps, x) => x * 2]; [1] is an [async] function
    that returns its argument; [2] is an [async] function that throws
    [boom]; [3] throws [boom]. *)
Definition boom : value := VError "Error" "boom" VUndefined.

Definition sample_command (c : FnRef) (this : DapiWrapper) (args : list value) (u : nat)
  : Outcome value * nat :=
  match c, args with
  | 0%nat, [_; VNumber x] => (Return (VNumber (x * 2)), u)
  | 1%nat, [_; x] => (Return (VPromise (Fulfils x)), u)
  | 2%nat, _ => (Return (VPromise (Rejects boom)), u)
  | 3%nat, _ => (Throw boom, u)
  | _, _ => (Return VUndefined, u)
  end.

(** Hooks: [21] throws [boom]; every other hook counts its calls in the
    user's state. *)
Definition sample_hook (h : FnRef) (this : DapiWrapper) (args : list value) (u : nat)
  : Outcome value * nat :=
  match h with
  | 21%nat => (Throw boom, u)
  | _ => (Return VUndefined, S u)
  end.

(** Decorators: [10] is [(next, deps, x) => next(deps, x) + 1]; [11] is
    [(next, deps, x) => next(deps, x) * 3]; every other decorator is
    [(next, ...args) => next(...args)]. *)
Definition sample_decorator (d : FnRef) (this : DapiWrapper)
  (next : list value -> StateExn (World nat) value) (args : list value)
  : StateExn (World nat) value :=
  match d with
  | 10%nat =>
      (let* r := next args in
       match r with VNumber n => ret (VNumber (n + 1)) | _ => ret VNaN end)%js
  | 11%nat =>
      (let* r := next args in
       match r with VNumber n => ret (VNumber (n * 3)) | _ => ret VNaN end)%js
  | _ => next args
  end.

#[global] Instance sample_functions : Functions := {|
  User := nat;
  command_body := sample_command;
  hook_body := sample_hook;
  decorator_body := sample_decorator
|}.

Definition sample_definition : DapiDefinition := {|
  dependencies := VObject [("foo", VString "bar")];
  fns := [("double", 0%nat); ("echo", 1%nat); ("fail", 2%nat); ("crash", 3%nat)];
  type := "test";
  name := None
|}.

(** [toString] and the registration methods resolve to functions on
    every instance. *)
Definition sample_methods (key : Key) : bool :=
  bool_decide (key ∈ ["toString"; "toJSON"; "addDecorator"; "addHook"]).

(** What [createDapi] returns for the definition. *)
Definition sample_wrapper : DapiWrapper :=
  new {| class_definition := sample_definition;
         class_dependencies := dependencies sample_definition;
         class_methods := sample_methods |}.

Definition empty_world : World User := {| user := 0%nat; calls := []; reactions := [] |}.

Definition sample_operations : list Operation :=
  [OpAddDecorator "double" 10%nat; OpAddHook Pre "echo" 20%nat; OpDecorateAll 11%nat;
   OpRemoveDecorator "double" 10%nat; OpRemoveHook Pre "echo" 20%nat;
   OpRemover (RemoveAll [RemoveDecorator "crash" 11%nat; RemoveDecorator "fail" 12%nat])].

End Sample.

(** ** Notions the statements are about *)

(** A key is decorated exactly when a registry has an entry for it, and
    no registry entry is empty. *)
Definition registries_agree (w : DapiWrapper) : Prop :=
  (∀ key, key ∈ __decoratedFns w ↔
            is_Some (decorators w !! key) ∨ is_Some (hooks w !! key))
  ∧ (∀ key ds, decorators w !! key = Some ds → ds ≠ [])
  ∧ (∀ key r, hooks w !! key = Some r → pre r ≠ [] ∨ post r ≠ []).

(** The closure the facade holds for a key of the function map follows
    the decorated state of the key. *)
Definition facade_follows (w : DapiWrapper) : Prop :=
  ∀ key, key ∈ Object_keys (fns (__definition w)) →
    __facade w !! key =
      Some (if includes key (__decoratedFns w)
            then Decorable key (Object_get (fns (__definition w)) key)
            else Direct key (Object_get (fns (__definition w)) key)).

Definition registries_ok (w : DapiWrapper) : Prop :=
  NoDup (__decoratedFns w) ∧ registries_agree w.

Definition facade_ok (w : DapiWrapper) : Prop :=
  facade_follows w
  ∧ (∀ key, key ∈ __decoratedFns w → key ∈ Object_keys (fns (__definition w))).

Definition consistent (w : DapiWrapper) : Prop :=
  registries_ok w ∧ facade_ok w.

(** The wrapper after a method has run, whatever its outcome. *)
Definition after {A} (m : Method A) (w : DapiWrapper) : DapiWrapper := (m w).2.

(** What the first statements of [addDecorator] and of [removeDecorator]
    do to the decorators registry, before the decorated state of the key
    is looked at again. *)
Definition registry_add (key : Key) (decorator : FnRef) (m : gmap Key (list FnRef))
  : gmap Key (list FnRef) :=
  alter (push decorator) key (if bool_decide (m !! key = None) then <[key := []]> m else m).

Definition registry_remove (key : Key) (decorator : FnRef) (m : gmap Key (list FnRef))
  : gmap Key (list FnRef) :=
  let m1 :=
    match indexOf decorator <$> m !! key with
    | Some i => if negb (bool_decide (i = -1)) then alter (splice1 i) key m else m
    | None => m
    end in
  match m1 !! key with
  | Some ds => if bool_decide (length ds = 0%nat) then delete key m1 else m1
  | None => m1
  end.

(** The same for [addHook] and [removeHook] and the hooks registry. *)
Definition hook_added (t : hookType) (key : Key) (hook : FnRef) (w : DapiWrapper)
  : DapiWrapper :=
  with_hooks (alter (with_hooks_of t (push hook)) key)
    (if negb (bool_decide (is_Some (hooks w !! key)))
     then with_allocated (S (allocated w))
            (with_hooks <[key := {| record_id := allocated w; pre := []; post := [] |}]> w)
     else w).

Definition hooks_remove (t : hookType) (key : Key) (hook : FnRef) (r : HookRecord)
  (m : gmap Key HookRecord) : gmap Key HookRecord :=
  let index := indexOf hook (hooks_of t r) in
  let m1 :=
    if negb (bool_decide (index = -1))
    then alter (with_hooks_of t (splice1 index)) key m else m in
  match m1 !! key with
  | Some r' =>
      if bool_decide (length (pre r') = 0%nat) && bool_decide (length (post r') = 0%nat)
      then delete key m1 else m1
  | None => m1
  end.

(** [w1] is [w0] with a registry changed at [key] only, and with no empty
    entry under [key]. *)
Definition registry_changed_at (key : Key) (w0 w1 : DapiWrapper) : Prop :=
  __decoratedFns w1 = __decoratedFns w0
  ∧ __definition w1 = __definition w0
  ∧ (∀ k, k ≠ key → decorators w1 !! k = decorators w0 !! k
                     ∧ hooks w1 !! k = hooks w0 !! k)
  ∧ (∀ ds, decorators w1 !! key = Some ds → ds ≠ [])
  ∧ (∀ r, hooks w1 !! key = Some r → pre r ≠ [] ∨ post r ≠ []).

Section CallNotions.
Context {F : Functions}.

(** A decorator that is [(next, ...args) => next(...args)]. *)
Definition transparent (d : FnRef) : Prop :=
  ∀ this next args, decorator_body d this next args = next args.

(** The command of a key behind the hook decorator of the key, if the key
    has one. *)
Definition hooked (this : DapiWrapper) (key : Key) (method : Callable) : Callable :=
  match __hookDecorator this key with
  | Some hookDecorator => hookDecorator method
  | None => method
  end.

(** Decorators nested around a callable, the outermost first. *)
Fixpoint nest (this : DapiWrapper) (outer_first : list FnRef) (inner : Callable) : Callable :=
  match outer_first with
  | [] => inner
  | d :: rest => bind_decorator this d (nest this rest inner)
  end.

(** The events of entering the decorators of a chain, outermost first. *)
Definition entering (outer_first : list FnRef) (args : list value) : list Event :=
  (λ d, DecoratorCalled d args) <$> outer_first.



(** The argument lists the hooks were called with. *)
Definition hook_arguments (events : list Event) : list (list value) :=
  omap (λ e, match e with HookCalled _ _ args => Some args | _ => None end) events.

(** What a call adds to the record of the world, up to the time its
    promises have settled. *)
Definition events_of_call (this : DapiWrapper) (key : Key) (params : list value)
  (s : World User) : list Event :=
  drop (length (calls s)) (calls (settle_promises this (call this key params s).2)).

(** The same for the hook decorator of a key around the command. *)
Definition events_of_hooked (this : DapiWrapper) (key : Key) (command : FnRef)
  (args : list value) (s : World User) : list Event :=
  drop (length (calls s))
    (calls (settle_promises this
              (hooked this key (call_command (Some command) this) args s).2)).

End CallNotions.

Section ClaimedChain.
Context {F : Functions}.

(** The composition in the words of the specification: the decorator
    registered first is the outermost wrapper and the hook decorator is
    the innermost one. *)
Definition first_registered_outermost (this : DapiWrapper) (key : Key) (command : FnRef)
  (params : list value) (s : World User) : Prop :=
  call this key params s =
    nest this (default [] (decorators this !! key))
      (hooked this key (call_command (Some command) this))
      (__deps this :: params) s.

End ClaimedChain.

(** An object has one value for each of its property names. *)
Definition well_formed_object (v : value) : Prop := NoDup (own_enumerable v).*1.

Module Scenario.
Import Sample.

(** [double] decorated with [10] and then with [11]. *)
Definition two_decorators : DapiWrapper :=
  after (addDecorator "double" 11%nat) (after (addDecorator "double" 10%nat) sample_wrapper).

(** [double] decorated with [10] twice. *)
Definition registered_twice : DapiWrapper :=
  after (addDecorator "double" 10%nat) (after (addDecorator "double" 10%nat) sample_wrapper).

(** [echo], [fail] and [double], each with the post-hook [20]. *)
Definition with_post_hooks : DapiWrapper :=
  after (addPostHook "double" 20%nat)
    (after (addPostHook "fail" 20%nat) (after (addPostHook "echo" 20%nat) sample_wrapper)).

(** [echo] with the post-hook [21], which throws. *)
Definition with_throwing_post_hook : DapiWrapper :=
  after (addPostHook "echo" 21%nat) sample_wrapper.





End Scenario.





Definition undecorated_each (fn : FnRef) (keys : list Key) (w : DapiWrapper) : DapiWrapper :=
  fold_left (λ w key, after (removeDecorator key fn) w) keys w.

Section Records.
Context {F : Functions}.

(** From [s] to [s'] the world has recorded more events, all of them in
    [Q], and more reactions, all of them in [R]. *)
Definition adds (Q : Event → Prop) (R : Reaction → Prop) (s s' : World User) : Prop :=
  ∃ events rs,
    calls s' = calls s ++ events ∧ reactions s' = reactions s ++ rs
    ∧ Forall Q events ∧ Forall R rs.

(** [Q] holds of every call event whose arguments are [args], and of the
    events that carry no arguments. *)
Definition admits (args : list value) (Q : Event → Prop) : Prop :=
  (∀ c, Q (CommandCalled c args)) ∧ (∀ d, Q (DecoratorCalled d args))
  ∧ (∀ t h, Q (HookCalled t h args)) ∧ (∀ e, Q (UnhandledRejection e)).

End Records.

Section ClaimedCalls.
Context {F : Functions}.

(** Hooks and the dependencies in the words of the specification: every
    hook called for a call of the facade is given the arguments of the
    call, without the dependencies. *)
Definition hooks_see_call_site_arguments (this : DapiWrapper) (key : Key)
  (params : list value) (s : World User) : Prop :=
  ∀ args, args ∈ hook_arguments (events_of_call this key params s) → args = params.


End ClaimedCalls.

(** ** Clients *)

(** The calls a client can make on a wrapper besides calling a command.
    A client may catch what a call throws and go on, so a sequence of
    calls is followed through whatever their outcomes. *)
Inductive Action : Type :=
| Registration (op : Operation)
| SetDependencies (newDeps : value)
| UpdateDependencies (newDeps : value)
| UnmakeDecorable (key : Key).

Definition run_action (a : Action) : Method unit :=
  match a with
  | Registration op => run_operation op
  | SetDependencies newDeps => setDependencies newDeps
  | UpdateDependencies newDeps => updateDependencies newDeps
  | UnmakeDecorable key => unmakeDecorable key
  end.

Definition reached (w0 : DapiWrapper) (actions : list Action) : DapiWrapper :=
  fold_left (λ w a, after (run_action a) w) actions w0.

(** The events of calling hooks one after the other with the same
    arguments. *)
Definition hook_events (t : hookType) (hs : list FnRef) (args : list value) : list Event :=
  (λ h, HookCalled t h args) <$> hs.

(** What a wrapper holds for a key is the same in [w] and in [w']. *)
Definition same_at (k : Key) (w w' : DapiWrapper) : Prop :=
  decorators w' !! k = decorators w !! k
  ∧ hooks w' !! k = hooks w !! k
  ∧ __facade w' !! k = __facade w !! k
  ∧ (k ∈ __decoratedFns w' ↔ k ∈ __decoratedFns w).

Module HookScenario.
Import Sample.

(** [double] with the pre-hooks [20] and [22] and the post-hooks [23] and
    [24], registered in that order. *)
Definition around_double : DapiWrapper :=
  after (addPostHook "double" 24%nat)
    (after (addPostHook "double" 23%nat)
       (after (addPreHook "double" 22%nat)
          (after (addPreHook "double" 20%nat) sample_wrapper))).

(** [double] with the pre-hooks [20], [21], which throws, and [22]. *)
Definition throwing_pre_hook : DapiWrapper :=
  after (addPreHook "double" 22%nat)
    (after (addPreHook "double" 21%nat)
       (after (addPreHook "double" 20%nat) sample_wrapper)).

(** The arguments the hook decorator of [double] gets for [double(5)]. *)
Definition five : list value := [VObject [("foo", VString "bar")]; VNumber 5].

End HookScenario.

(** Hook records are numbered in the order of their creation, so the
    number of a record tells its arrays from the arrays of every record
    made later. *)
Definition ids_fresh (w : DapiWrapper) : Prop :=
  ∀ k r, hooks w !! k = Some r → (record_id r < allocated w)%nat.

(** * Properties *)

(** ** Arrays *)

Section Arrays.
Context `{EqDecision A}.
Implicit Types (x y : A) (l : list A).

Lemma indexOf_range x l : indexOf x l = -1 ∨ 0 ≤ indexOf x l < Z.of_nat (length l).
Proof.
  induction l as [|y l IH]; simpl; [by left|].
  case_bool_decide; [right; lia|].
  case_bool_decide; [by left|]. right. lia.
Qed.

Lemma indexOf_absent x l : indexOf x l = -1 ↔ x ∉ l.
Proof.
  induction l as [|y l IH]; simpl.
  - split; [intros _; apply not_elem_of_nil | done].
  - case_bool_decide as Hy.
    + subst. split; [lia | intros []; left].
    + rewrite not_elem_of_cons. case_bool_decide as Hi.
      * split; [intros _; split; [congruence | by apply IH] | done].
      * destruct (indexOf_range x l) as [? | ?]; [done|].
        split; [lia | intros [_ ?]; exfalso; apply Hi; by apply IH].
Qed.

Lemma indexOf_app_first x l1 l2 :
  x ∉ l1 → indexOf x (l1 ++ x :: l2) = Z.of_nat (length l1).
Proof.
  induction l1 as [|y l1 IH]; simpl; intros Hx.
  - by rewrite bool_decide_eq_true_2.
  - apply not_elem_of_cons in Hx as [? ?].
    rewrite bool_decide_eq_false_2 by congruence.
    rewrite IH by done. rewrite bool_decide_eq_false_2 by lia. lia.
Qed.

Lemma splice1_app_first x l1 l2 :
  x ∉ l1 → splice1 (indexOf x (l1 ++ x :: l2)) (l1 ++ x :: l2) = l1 ++ l2.
Proof.
  intros Hx. rewrite indexOf_app_first by done. unfold splice1.
  rewrite bool_decide_eq_false_2 by lia. rewrite Nat2Z.id.
  induction l1 as [|y l1 IH]; simpl; [done|].
  f_equal. apply IH. by apply not_elem_of_cons in Hx as [_ ?].
Qed.

(** [l.splice(l.indexOf(x), 1)] removes the first occurrence of [x]. *)
Lemma splice1_indexOf x l :
  x ∈ l → ∃ l1 l2, l = l1 ++ x :: l2 ∧ (x ∉ l1) ∧ splice1 (indexOf x l) l = l1 ++ l2.
Proof.
  intros Hx. apply list_elem_of_split_l in Hx as (l1 & l2 & -> & Hl1).
  exists l1, l2. split_and!; [done | done | by apply splice1_app_first].
Qed.

Lemma splice1_push x l : x ∉ l → splice1 (indexOf x (push x l)) (push x l) = l.
Proof.
  intros Hx. unfold push. rewrite splice1_app_first by done. apply app_nil_r.
Qed.

Lemma includes_true x l : includes x l = true ↔ x ∈ l.
Proof. unfold includes. apply bool_decide_eq_true. Qed.

Lemma includes_false x l : includes x l = false ↔ x ∉ l.
Proof. unfold includes. apply bool_decide_eq_false. Qed.

End Arrays.

(** ** What each method does to the wrapper *)

Lemma makeDecorable_after key w :
  __makeDecorable key w = (Return tt, after (__makeDecorable key) w).
Proof.
  unfold after, __makeDecorable, bind, get. simpl.
  by destruct (includes key (__decoratedFns w) || _).
Qed.

Lemma unmakeDecorable_after key w :
  unmakeDecorable key w = (Return tt, after (unmakeDecorable key) w).
Proof.
  unfold after, unmakeDecorable, bind, get. simpl.
  by destruct (negb _ || _ || _).
Qed.

Lemma makeDecorable_run key w :
  __makeDecorable key w =
    (Return tt,
     if includes key (__decoratedFns w) || negb (Object_hasOwn (fns (__definition w)) key)
     then w
     else with_decoratedFns (push key)
            (with_facade <[key := Decorable key (Object_get (fns (__definition w)) key)]> w)).
Proof.
  unfold __makeDecorable, bind, get. simpl.
  by destruct (includes key (__decoratedFns w) || _).
Qed.

Lemma unmakeDecorable_run key w :
  unmakeDecorable key w =
    (Return tt,
     if negb (includes key (__decoratedFns w))
        || bool_decide (is_Some (decorators w !! key))
        || bool_decide (is_Some (hooks w !! key))
     then w
     else with_decoratedFns (splice1 (indexOf key (__decoratedFns w)))
            (with_facade <[key := Direct key (Object_get (fns (__definition w)) key)]> w)).
Proof.
  unfold unmakeDecorable, bind, get. simpl.
  by destruct (negb _ || _ || _).
Qed.

Lemma addDecorator_run key decorator w :
  addDecorator key decorator w =
    if negb (typeof_member_is_function w key) then
      (Throw (TypeError "Cannot decorate non-function property"
                (VObject [("key", VString key)])), w)
    else if negb (Object_hasOwn (fns (__definition w)) key) then
      (Throw (TypeError "Cannot decorate non-Dapi function property"
                (VObject [("key", VString key)])), w)
    else
      (Return (RemoveDecorator key decorator),
       after (__makeDecorable key) (with_decorators (registry_add key decorator) w)).
Proof.
  unfold addDecorator, bind, get. simpl.
  destruct (negb (typeof_member_is_function w key)); [done|].
  destruct (negb (Object_hasOwn _ key)); [done|].
  unfold after, registry_add.
  case_bool_decide as Hkey; unfold modify, ret; simpl;
    rewrite !makeDecorable_run; simpl;
    unfold with_decorators, with_facade, with_decoratedFns; simpl;
    rewrite ?(bool_decide_eq_true_2 _ Hkey), ?(bool_decide_eq_false_2 _ Hkey); done.
Qed.

Lemma removeDecorator_run key decorator w :
  removeDecorator key decorator w =
    (Return tt,
     after (unmakeDecorable key) (with_decorators (registry_remove key decorator) w)).
Proof.
  unfold removeDecorator, bind, get, modify, ret. simpl.
  assert (∀ w', w' = with_decorators (registry_remove key decorator) w →
            unmakeDecorable key w' =
              (Return tt, after (unmakeDecorable key)
                            (with_decorators (registry_remove key decorator) w)))
    as Hend by (intros ? ->; apply unmakeDecorable_after).
  destruct (decorators w !! key) as [ds|] eqn:Hds; simpl.
  - destruct (bool_decide (indexOf decorator ds = -1)) eqn:Hi; simpl.
    + rewrite Hds. destruct (bool_decide (length ds = 0%nat)) eqn:Hlen; simpl; apply Hend;
        unfold with_decorators, registry_remove; simpl; rewrite Hds; simpl;
        rewrite Hi; simpl; rewrite Hds, Hlen; done.
    + rewrite lookup_alter_eq, Hds. simpl.
      destruct (bool_decide (length (splice1 (indexOf decorator ds) ds) = 0%nat)) eqn:Hlen;
        simpl; apply Hend;
        unfold with_decorators, registry_remove; simpl; rewrite Hds; simpl;
        rewrite Hi; simpl; rewrite lookup_alter_eq, Hds; simpl; rewrite Hlen; done.
  - rewrite Hds. apply Hend.
    unfold with_decorators, registry_remove; simpl. rewrite Hds. simpl. by rewrite Hds.
Qed.

Lemma addHook_run t key hook w :
  addHook t key hook w =
    if negb (includes key (Object_keys (fns (__definition w)))) then
      (Throw (TypeError "Cannot hook to non-function property"
                (VObject [("key", VString key)])), w)
    else
      (Return (RemoveHook t key hook),
       after (__makeDecorable key) (hook_added t key hook w)).
Proof.
  unfold addHook, hook_added, bind, get, modify, ret. simpl.
  destruct (negb (includes key _)); [done|].
  destruct (negb (bool_decide (is_Some (hooks w !! key)))); simpl;
    by rewrite makeDecorable_after.
Qed.

Lemma removeHook_run t key hook w :
  removeHook t key hook w =
    match hooks w !! key with
    | None => (Throw (cannot_read_undefined (hookType_name t)), w)
    | Some r =>
        (Return tt,
         after (unmakeDecorable key) (with_hooks (hooks_remove t key hook r) w))
    end.
Proof.
  unfold removeHook, bind, get, modify, ret, throw. simpl.
  destruct (hooks w !! key) as [r|] eqn:Hr; simpl; [|done].
  assert (∀ w', w' = with_hooks (hooks_remove t key hook r) w →
            unmakeDecorable key w' =
              (Return tt, after (unmakeDecorable key)
                            (with_hooks (hooks_remove t key hook r) w)))
    as Hend by (intros ? ->; apply unmakeDecorable_after).
  destruct (bool_decide (indexOf hook (hooks_of t r) = -1)) eqn:Hi; simpl.
  - rewrite Hr.
    destruct (bool_decide (length (pre r) = 0%nat) && bool_decide (length (post r) = 0%nat))
      eqn:Hlen; simpl; apply Hend;
      unfold with_hooks, hooks_remove; simpl; rewrite Hi; simpl; rewrite Hr, Hlen; done.
  - rewrite lookup_alter_eq, Hr. simpl.
    destruct (bool_decide (length (pre (with_hooks_of t _ r)) = 0%nat) && _)
      eqn:Hlen; simpl; apply Hend;
      unfold with_hooks, hooks_remove; simpl; rewrite Hi; simpl;
      rewrite lookup_alter_eq, Hr; simpl; rewrite Hlen; done.
Qed.
(** ** The registries *)

Lemma registry_add_eq key decorator (m : gmap Key (list FnRef)) :
  registry_add key decorator m = <[key := push decorator (default [] (m !! key))]> m.
Proof.
  unfold registry_add. apply map_eq. intros k.
  destruct (decide (k = key)) as [->|Hk].
  - rewrite lookup_alter_eq, lookup_insert_eq.
    case_bool_decide as Hm.
    + by rewrite lookup_insert_eq, Hm.
    + destruct (m !! key); done.
  - rewrite lookup_alter_ne, lookup_insert_ne by done.
    case_bool_decide; [by rewrite lookup_insert_ne | done].
Qed.

Lemma registry_remove_other key decorator (m : gmap Key (list FnRef)) k :
  k ≠ key → registry_remove key decorator m !! k = m !! k.
Proof.
  intros Hk. unfold registry_remove.
  set (m1 := match indexOf decorator <$> m !! key with Some i => _ | None => m end).
  assert (m1 !! k = m !! k) as Hm1.
  { unfold m1. destruct (m !! key) as [ds|]; simpl; [|done].
    destruct (negb _); [by rewrite lookup_alter_ne | done]. }
  destruct (m1 !! key) as [ds|]; [|done].
  case_bool_decide; [by rewrite lookup_delete_ne | done].
Qed.

(** At its key, [removeDecorator] drops the first occurrence of the
    decorator and then drops the list if nothing is left in it. *)
Lemma registry_remove_key key decorator (m : gmap Key (list FnRef)) :
  registry_remove key decorator m !! key =
    match m !! key with
    | None => None
    | Some ds =>
        let ds' := if bool_decide (decorator ∈ ds)
                   then splice1 (indexOf decorator ds) ds else ds in
        if bool_decide (ds' = []) then None else Some ds'
    end.
Proof.
  unfold registry_remove.
  destruct (m !! key) as [ds|] eqn:Hds; simpl; [|by rewrite Hds].
  destruct (bool_decide (indexOf decorator ds = -1)) eqn:Hi; simpl.
  - apply bool_decide_eq_true in Hi. apply indexOf_absent in Hi.
    rewrite (bool_decide_eq_false_2 _ Hi), Hds.
    destruct ds; simpl; [apply lookup_delete_eq | done].
  - apply bool_decide_eq_false in Hi.
    assert (decorator ∈ ds) as Hin.
    { destruct (decide (decorator ∈ ds)); [done|]. by apply indexOf_absent in n. }
    rewrite (bool_decide_eq_true_2 _ Hin), lookup_alter_eq, Hds. simpl.
    destruct (splice1 _ ds) eqn:Hsp; simpl;
      [apply lookup_delete_eq | by rewrite lookup_alter_eq, Hds; simpl; rewrite Hsp].
Qed.

Lemma registry_remove_nonempty key decorator (m : gmap Key (list FnRef)) ds :
  registry_remove key decorator m !! key = Some ds → ds ≠ [].
Proof.
  rewrite registry_remove_key. destruct (m !! key); [|done]. simpl.
  case_bool_decide; [done|]. congruence.
Qed.

Lemma registry_remove_was_some key decorator (m : gmap Key (list FnRef)) :
  is_Some (registry_remove key decorator m !! key) → is_Some (m !! key).
Proof. rewrite registry_remove_key. destruct (m !! key); [eauto | by intros []]. Qed.

(** Removing a decorator that is not registered changes nothing. *)
Lemma registry_remove_absent key decorator (m : gmap Key (list FnRef)) :
  (∀ ds, m !! key = Some ds → ds ≠ [] ∧ decorator ∉ ds) →
  registry_remove key decorator m = m.
Proof.
  intros Habs. apply map_eq. intros k.
  destruct (decide (k = key)) as [->|Hk]; [|by apply registry_remove_other].
  rewrite registry_remove_key. destruct (m !! key) as [ds|]; [|done].
  destruct (Habs ds eq_refl) as [Hne Hnot]. simpl.
  rewrite (bool_decide_eq_false_2 _ Hnot). by rewrite bool_decide_eq_false_2.
Qed.

Lemma hook_added_other t key hook w k :
  k ≠ key → hooks (hook_added t key hook w) !! k = hooks w !! k.
Proof.
  intros Hk. unfold hook_added. simpl. rewrite lookup_alter_ne by done.
  destruct (negb _); simpl; [by rewrite lookup_insert_ne | done].
Qed.

Lemma hook_added_key t key hook w :
  ∃ r, hooks (hook_added t key hook w) !! key = Some r ∧ hook ∈ hooks_of t r.
Proof.
  unfold hook_added. simpl. rewrite lookup_alter_eq.
  assert (∀ r, hook ∈ hooks_of t (with_hooks_of t (push hook) r)) as Hin.
  { intros r. destruct t; simpl; apply elem_of_app; right; by apply list_elem_of_singleton. }
  destruct (bool_decide (is_Some (hooks w !! key))) eqn:Hs; simpl.
  - apply bool_decide_eq_true in Hs as [r Hr]. rewrite Hr. simpl. eauto.
  - rewrite lookup_insert_eq. simpl. eauto.
Qed.

Lemma hooks_of_nonempty t r : hooks_of t r ≠ [] → pre r ≠ [] ∨ post r ≠ [].
Proof. destruct t; simpl; auto. Qed.

Lemma hooks_remove_other t key hook r (m : gmap Key HookRecord) k :
  k ≠ key → hooks_remove t key hook r m !! k = m !! k.
Proof.
  intros Hk. unfold hooks_remove.
  set (m1 := if negb _ then _ else m).
  assert (m1 !! k = m !! k) as Hm1.
  { unfold m1. destruct (negb _); [by rewrite lookup_alter_ne | done]. }
  destruct (m1 !! key) as [r'|]; [|done].
  destruct (_ && _); [by rewrite lookup_delete_ne | done].
Qed.

Lemma length_zero {A} (l : list A) : length l = 0%nat ↔ l = [].
Proof. destruct l; simpl; split; intros; congruence. Qed.

Lemma hooks_remove_nonempty t key hook r (m : gmap Key HookRecord) r' :
  hooks_remove t key hook r m !! key = Some r' → pre r' ≠ [] ∨ post r' ≠ [].
Proof.
  unfold hooks_remove.
  set (m1 := if negb _ then _ else m).
  destruct (m1 !! key) as [r1|] eqn:Hr1; [|congruence].
  destruct (bool_decide (length (pre r1) = 0%nat)) eqn:Hpre; simpl.
  - destruct (bool_decide (length (post r1) = 0%nat)) eqn:Hpost; simpl.
    + by rewrite lookup_delete_eq.
    + rewrite Hr1. intros [= <-]. right.
      apply bool_decide_eq_false in Hpost. by rewrite <- length_zero.
  - rewrite Hr1. intros [= <-]. left.
    apply bool_decide_eq_false in Hpre. by rewrite <- length_zero.
Qed.

Lemma hooks_remove_was_some t key hook r (m : gmap Key HookRecord) :
  is_Some (hooks_remove t key hook r m !! key) → is_Some (m !! key).
Proof.
  unfold hooks_remove.
  set (m1 := if negb _ then _ else m).
  assert (is_Some (m1 !! key) → is_Some (m !! key)) as Hm1.
  { unfold m1. destruct (negb _); [|done].
    rewrite lookup_alter_eq. destruct (m !! key); simpl; [intros _; by eexists | auto]. }
  destruct (m1 !! key) as [r1|] eqn:Hr1; [|rewrite Hr1; by intros [? ?]].
  intros _. apply Hm1. eauto.
Qed.


(** ** The invariant of the registries *)

Lemma makeDecorable_fields key w :
  __definition (after (__makeDecorable key) w) = __definition w
  ∧ decorators (after (__makeDecorable key) w) = decorators w
  ∧ hooks (after (__makeDecorable key) w) = hooks w
  ∧ __deps (after (__makeDecorable key) w) = __deps w.
Proof.
  unfold after. rewrite makeDecorable_run. simpl.
  by destruct (includes key (__decoratedFns w) || _).
Qed.

Lemma unmakeDecorable_fields key w :
  __definition (after (unmakeDecorable key) w) = __definition w
  ∧ decorators (after (unmakeDecorable key) w) = decorators w
  ∧ hooks (after (unmakeDecorable key) w) = hooks w
  ∧ __deps (after (unmakeDecorable key) w) = __deps w.
Proof.
  unfold after. rewrite unmakeDecorable_run. simpl.
  by destruct (negb _ || _ || _).
Qed.

(** The decorated keys once [__makeDecorable] has run for a key of the
    function map. *)
Lemma makeDecorable_decorated key w :
  key ∈ Object_keys (fns (__definition w)) →
  __decoratedFns (after (__makeDecorable key) w) =
    if bool_decide (key ∈ __decoratedFns w) then __decoratedFns w
    else push key (__decoratedFns w).
Proof.
  intros Hkey. unfold after. rewrite makeDecorable_run. simpl.
  unfold includes, Object_hasOwn. rewrite (bool_decide_eq_true_2 _ Hkey). simpl.
  rewrite orb_false_r. by case_bool_decide.
Qed.

Lemma unmakeDecorable_decorated key w :
  __decoratedFns (after (unmakeDecorable key) w) =
    if bool_decide (key ∈ __decoratedFns w)
       && negb (bool_decide (is_Some (decorators w !! key)))
       && negb (bool_decide (is_Some (hooks w !! key)))
    then splice1 (indexOf key (__decoratedFns w)) (__decoratedFns w)
    else __decoratedFns w.
Proof.
  unfold after. rewrite unmakeDecorable_run. simpl. unfold includes.
  destruct (bool_decide (key ∈ _)), (bool_decide (is_Some (decorators w !! key))),
    (bool_decide (is_Some (hooks w !! key))); done.
Qed.

Lemma splice1_indexOf_NoDup `{EqDecision A} (x : A) l :
  NoDup l → x ∈ l →
  NoDup (splice1 (indexOf x l) l)
  ∧ ∀ y, y ∈ splice1 (indexOf x l) l ↔ y ∈ l ∧ y ≠ x.
Proof.
  intros Hnd Hx. destruct (splice1_indexOf x l Hx) as (l1 & l2 & -> & Hl1 & ->).
  apply NoDup_app in Hnd as (Hnd1 & Hdisj & Hnd2).
  apply NoDup_cons in Hnd2 as [Hx2 Hnd2].
  split.
  - apply NoDup_app. split_and!; [done | | done].
    intros y Hy1 Hy2. apply (Hdisj y Hy1). by right.
  - intros y. rewrite !elem_of_app, elem_of_cons. split.
    + intros [Hy|Hy]; (split; [tauto|]); intros ->; [done | done].
    + intros [[Hy|[Hy|Hy]] Hne]; [tauto | done | tauto].
Qed.
Lemma makeDecorable_agree key w0 w1 :
  NoDup (__decoratedFns w0) → registries_agree w0 →
  registry_changed_at key w0 w1 →
  key ∈ Object_keys (fns (__definition w0)) →
  is_Some (decorators w1 !! key) ∨ is_Some (hooks w1 !! key) →
  NoDup (__decoratedFns (after (__makeDecorable key) w1))
  ∧ registries_agree (after (__makeDecorable key) w1).
Proof.
  intros Hnd (Hiff & Hds & Hrs) (HdF & Hdef & Hother & Hds1 & Hrs1) Hkey Hsome.
  destruct (makeDecorable_fields key w1) as (_ & Hdec & Hhooks & _).
  assert (__decoratedFns (after (__makeDecorable key) w1) =
            if bool_decide (key ∈ __decoratedFns w0) then __decoratedFns w0
            else push key (__decoratedFns w0)) as HdF'.
  { rewrite makeDecorable_decorated by (by rewrite Hdef). by rewrite HdF. }
  unfold registries_agree. rewrite HdF', Hdec, Hhooks. clear HdF' Hdec Hhooks.
  split; [|split_and!].
  - case_bool_decide as Hin; [done|].
    unfold push. apply NoDup_app. split_and!; [done | | apply NoDup_singleton].
    intros x Hx ->%list_elem_of_singleton. done.
  - intros k. destruct (decide (k = key)) as [->|Hk].
    + split; [done|]. intros _. case_bool_decide; [done|].
      apply elem_of_app. right. by apply list_elem_of_singleton.
    + destruct (Hother k Hk) as [-> ->]. rewrite <- Hiff.
      case_bool_decide; [done|]. unfold push. rewrite elem_of_app, list_elem_of_singleton.
      naive_solver.
  - intros k ds. destruct (decide (k = key)) as [->|Hk]; [apply Hds1|].
    destruct (Hother k Hk) as [-> _]. apply Hds.
  - intros k r. destruct (decide (k = key)) as [->|Hk]; [apply Hrs1|].
    destruct (Hother k Hk) as [_ ->]. apply Hrs.
Qed.

Lemma unmakeDecorable_agree key w0 w1 :
  NoDup (__decoratedFns w0) → registries_agree w0 →
  registry_changed_at key w0 w1 →
  (is_Some (decorators w1 !! key) ∨ is_Some (hooks w1 !! key) →
   is_Some (decorators w0 !! key) ∨ is_Some (hooks w0 !! key)) →
  NoDup (__decoratedFns (after (unmakeDecorable key) w1))
  ∧ registries_agree (after (unmakeDecorable key) w1).
Proof.
  intros Hnd (Hiff & Hds & Hrs) (HdF & Hdef & Hother & Hds1 & Hrs1) Hwas.
  destruct (unmakeDecorable_fields key w1) as (_ & Hdec & Hhooks & _).
  pose proof (unmakeDecorable_decorated key w1) as HdF'. rewrite HdF in HdF'.
  unfold registries_agree. rewrite HdF', Hdec, Hhooks. clear HdF' Hdec Hhooks.
  destruct (bool_decide (key ∈ __decoratedFns w0)) eqn:Hin; simpl.
  - apply bool_decide_eq_true in Hin.
    destruct (splice1_indexOf_NoDup key _ Hnd Hin) as [Hnd' Hmem].
    destruct (bool_decide (is_Some (decorators w1 !! key))) eqn:Hd; simpl.
    { apply bool_decide_eq_true in Hd. split; [done|]. split_and!.
      - intros k. destruct (decide (k = key)) as [->|Hk]; [naive_solver|].
        destruct (Hother k Hk) as [-> ->]. apply Hiff.
      - intros k ds. destruct (decide (k = key)) as [->|Hk]; [apply Hds1|].
        destruct (Hother k Hk) as [-> _]. apply Hds.
      - intros k r. destruct (decide (k = key)) as [->|Hk]; [apply Hrs1|].
        destruct (Hother k Hk) as [_ ->]. apply Hrs. }
    apply bool_decide_eq_false in Hd.
    destruct (bool_decide (is_Some (hooks w1 !! key))) eqn:Hh; simpl.
    { apply bool_decide_eq_true in Hh. split; [done|]. split_and!.
      - intros k. destruct (decide (k = key)) as [->|Hk]; [naive_solver|].
        destruct (Hother k Hk) as [-> ->]. apply Hiff.
      - intros k ds. destruct (decide (k = key)) as [->|Hk]; [apply Hds1|].
        destruct (Hother k Hk) as [-> _]. apply Hds.
      - intros k r. destruct (decide (k = key)) as [->|Hk]; [apply Hrs1|].
        destruct (Hother k Hk) as [_ ->]. apply Hrs. }
    apply bool_decide_eq_false in Hh.
    split; [done|]. split_and!.
    + intros k. rewrite Hmem. destruct (decide (k = key)) as [->|Hk]; [naive_solver|].
      destruct (Hother k Hk) as [-> ->]. rewrite <- Hiff. naive_solver.
    + intros k ds. destruct (decide (k = key)) as [->|Hk]; [apply Hds1|].
      destruct (Hother k Hk) as [-> _]. apply Hds.
    + intros k r. destruct (decide (k = key)) as [->|Hk]; [apply Hrs1|].
      destruct (Hother k Hk) as [_ ->]. apply Hrs.
  - apply bool_decide_eq_false in Hin. split; [done|]. split_and!.
    + intros k. destruct (decide (k = key)) as [->|Hk].
      * split; [done|]. intros Hs. apply Hwas in Hs. by apply Hiff in Hs.
      * destruct (Hother k Hk) as [-> ->]. apply Hiff.
    + intros k ds. destruct (decide (k = key)) as [->|Hk]; [apply Hds1|].
      destruct (Hother k Hk) as [-> _]. apply Hds.
    + intros k r. destruct (decide (k = key)) as [->|Hk]; [apply Hrs1|].
      destruct (Hother k Hk) as [_ ->]. apply Hrs.
Qed.
Lemma makeDecorable_facade key w :
  facade_ok w → facade_ok (after (__makeDecorable key) w).
Proof.
  intros [Hfollows Hsub]. unfold facade_ok, after. rewrite makeDecorable_run. simpl.
  destruct (includes key (__decoratedFns w)) eqn:Hin; simpl; [done|].
  destruct (Object_hasOwn (fns (__definition w)) key) eqn:Hown; simpl; [|done].
  apply bool_decide_eq_true in Hown. apply includes_false in Hin.
  split.
  - intros k Hk. simpl in *. unfold push.
    destruct (decide (k = key)) as [->|Hne].
    + rewrite lookup_insert_eq.
      replace (includes key (__decoratedFns w ++ [key])) with true; [done|].
      symmetry. apply includes_true, elem_of_app. right. by apply list_elem_of_singleton.
    + rewrite lookup_insert_ne by done. rewrite (Hfollows k Hk).
      replace (includes k (__decoratedFns w ++ [key])) with (includes k (__decoratedFns w));
        [done|].
      unfold includes. apply bool_decide_ext.
      rewrite elem_of_app, list_elem_of_singleton. naive_solver.
  - intros k. simpl. unfold push. rewrite elem_of_app, list_elem_of_singleton.
    intros [Hk| ->]; [by apply Hsub | done].
Qed.

Lemma unmakeDecorable_facade key w :
  NoDup (__decoratedFns w) → facade_ok w → facade_ok (after (unmakeDecorable key) w).
Proof.
  intros Hnd [Hfollows Hsub]. unfold facade_ok, after. rewrite unmakeDecorable_run. simpl.
  destruct (includes key (__decoratedFns w)) eqn:Hin; simpl; [|done].
  destruct (bool_decide (is_Some (decorators w !! key))); simpl; [done|].
  destruct (bool_decide (is_Some (hooks w !! key))); simpl; [done|].
  apply includes_true in Hin.
  destruct (splice1_indexOf_NoDup key _ Hnd Hin) as [Hnd' Hmem].
  split.
  - intros k Hk. simpl in *.
    destruct (decide (k = key)) as [->|Hne].
    + rewrite lookup_insert_eq.
      replace (includes key (splice1 _ _)) with false; [done|].
      symmetry. apply includes_false. rewrite Hmem. naive_solver.
    + rewrite lookup_insert_ne by done. rewrite (Hfollows k Hk).
      replace (includes k (splice1 (indexOf key (__decoratedFns w)) (__decoratedFns w)))
        with (includes k (__decoratedFns w)); [done|].
      unfold includes. apply bool_decide_ext. rewrite Hmem. naive_solver.
  - intros k. simpl. rewrite Hmem. intros [Hk _]. by apply Hsub.
Qed.

(** *** The registries stay in agreement *)

Lemma addDecorator_agree key decorator w :
  registries_ok w → registries_ok (after (addDecorator key decorator) w).
Proof.
  intros [Hnd Hagree]. unfold after at 1. rewrite addDecorator_run.
  destruct (negb (typeof_member_is_function w key)); [done|].
  destruct (Object_hasOwn (fns (__definition w)) key) eqn:Hown; simpl; [|done].
  apply bool_decide_eq_true in Hown.
  apply (makeDecorable_agree key w); [done | done | | done |].
  - destruct Hagree as (_ & Hds & Hrs). split_and!; simpl; [done | done | | |].
    + intros k Hk. by rewrite registry_add_eq, lookup_insert_ne.
    + intros ds. rewrite registry_add_eq, lookup_insert_eq. intros [= <-].
      unfold push. by destruct (default [] _).
    + apply Hrs.
  - left. simpl. rewrite registry_add_eq, lookup_insert_eq. eauto.
Qed.

Lemma removeDecorator_agree key decorator w :
  registries_ok w → registries_ok (after (removeDecorator key decorator) w).
Proof.
  intros [Hnd Hagree]. unfold after at 1. rewrite removeDecorator_run. simpl.
  apply (unmakeDecorable_agree key w); [done | done | |].
  - destruct Hagree as (_ & Hds & Hrs). split_and!; simpl; [done | done | | |].
    + intros k Hk. by rewrite registry_remove_other.
    + apply registry_remove_nonempty.
    + apply Hrs.
  - simpl. intros [Hs|Hs]; [left; by apply registry_remove_was_some in Hs | by right].
Qed.

Lemma hook_added_fields t key hook w :
  __decoratedFns (hook_added t key hook w) = __decoratedFns w
  ∧ __definition (hook_added t key hook w) = __definition w
  ∧ decorators (hook_added t key hook w) = decorators w
  ∧ __facade (hook_added t key hook w) = __facade w.
Proof. unfold hook_added. by destruct (negb _). Qed.

Lemma addHook_agree t key hook w :
  registries_ok w → registries_ok (after (addHook t key hook) w).
Proof.
  intros [Hnd Hagree]. unfold after at 1. rewrite addHook_run.
  destruct (includes key (Object_keys (fns (__definition w)))) eqn:Hown; simpl; [|done].
  apply includes_true in Hown.
  destruct (hook_added_key t key hook w) as (r & Hr & Hin).
  destruct (hook_added_fields t key hook w) as (HdF & Hdef & Hdec & Hfac).
  apply (makeDecorable_agree key w); [done | done | | done |].
  - destruct Hagree as (_ & Hds & Hrs). split_and!; [done | done | | |].
    + intros k Hk. by rewrite Hdec, hook_added_other.
    + rewrite Hdec. apply Hds.
    + intros r'. rewrite Hr. intros [= <-]. apply (hooks_of_nonempty t).
      intros Hnil. rewrite Hnil in Hin. by apply elem_of_nil in Hin.
  - right. rewrite Hr. eauto.
Qed.

Lemma removeHook_agree t key hook w :
  registries_ok w → registries_ok (after (removeHook t key hook) w).
Proof.
  intros [Hnd Hagree]. unfold after at 1. rewrite removeHook_run.
  destruct (hooks w !! key) as [r|] eqn:Hr; [|done]. simpl.
  apply (unmakeDecorable_agree key w); [done | done | |].
  - destruct Hagree as (_ & Hds & Hrs). split_and!; simpl; [done | done | | |].
    + intros k Hk. by rewrite hooks_remove_other.
    + apply Hds.
    + apply hooks_remove_nonempty.
  - simpl. intros [Hs|Hs]; [by left | right; by apply hooks_remove_was_some in Hs].
Qed.

(** *** The facade follows the decorated keys *)

Lemma addDecorator_consistent key decorator w :
  consistent w → consistent (after (addDecorator key decorator) w).
Proof.
  intros [Hok Hfacade]. split; [by apply addDecorator_agree|].
  unfold after. rewrite addDecorator_run.
  destruct (negb (typeof_member_is_function w key)); [done|].
  destruct (negb (Object_hasOwn (fns (__definition w)) key)); [done|].
  by apply makeDecorable_facade.
Qed.

Lemma removeDecorator_consistent key decorator w :
  consistent w → consistent (after (removeDecorator key decorator) w).
Proof.
  intros [Hok Hfacade]. split; [by apply removeDecorator_agree|].
  unfold after at 1. rewrite removeDecorator_run. simpl.
  apply unmakeDecorable_facade; [apply Hok | done].
Qed.

Lemma addHook_consistent t key hook w :
  consistent w → consistent (after (addHook t key hook) w).
Proof.
  intros [Hok Hfacade]. split; [by apply addHook_agree|].
  unfold after at 1. rewrite addHook_run.
  destruct (negb (includes key (Object_keys (fns (__definition w))))); [done|]. simpl.
  apply makeDecorable_facade.
  destruct (hook_added_fields t key hook w) as (HdF & Hdef & Hdec & Hfac).
  unfold facade_ok, facade_follows. by rewrite HdF, Hdef, Hfac.
Qed.

Lemma removeHook_consistent t key hook w :
  consistent w → consistent (after (removeHook t key hook) w).
Proof.
  intros [Hok Hfacade]. split; [by apply removeHook_agree|].
  unfold after at 1. rewrite removeHook_run.
  destruct (hooks w !! key) as [r|] eqn:Hr; [|done]. simpl.
  apply unmakeDecorable_facade; [apply Hok | done].
Qed.

(** *** Sequences of registration calls *)

Lemma after_bind {A B} (c : Method A) (k : A → Method B) w :
  after (bind c k) w =
    match (c w).1 with
    | Return a => after (k a) (after c w)
    | Throw _ => after c w
    end.
Proof. unfold after, bind. by destruct (c w) as [[a|e] w']. Qed.

Section Preserved.
Variable P : DapiWrapper → Prop.
Hypothesis P_addDecorator : ∀ key d w, P w → P (after (addDecorator key d) w).
Hypothesis P_removeDecorator : ∀ key d w, P w → P (after (removeDecorator key d) w).
Hypothesis P_addHook : ∀ t key h w, P w → P (after (addHook t key h) w).
Hypothesis P_removeHook : ∀ t key h w, P w → P (after (removeHook t key h) w).

Lemma preserved_bind {A B} (c : Method A) (k : A → Method B) w :
  P (after c w) → (∀ a w', P w' → P (after (k a) w')) → P (after (bind c k) w).
Proof. intros Hc Hk. rewrite after_bind. destruct (c w).1; auto. Qed.

Lemma preserved_addDecorator_each keys d w :
  P w → P (after (addDecorator_each keys d) w).
Proof.
  revert w. induction keys as [|key keys IH]; intros w Hw; [done|]. simpl.
  apply preserved_bind; [by apply P_addDecorator|]. intros r w1 Hw1.
  apply preserved_bind; [by apply IH|]. done.
Qed.

Lemma preserved_decorateAll d w : P w → P (after (decorateAll d) w).
Proof.
  intros Hw. unfold decorateAll. apply preserved_bind; [done|]. intros w0 w1 Hw1.
  apply preserved_bind; [by apply preserved_addDecorator_each | done].
Qed.

Lemma preserved_run_remover r : ∀ w, P w → P (after (run_remover r) w).
Proof.
  revert r. fix IH 1. intros [key d|t key h|rs] w Hw; simpl.
  - by apply P_removeDecorator.
  - by apply P_removeHook.
  - revert w Hw. induction rs as [|r rs IHrs]; intros w Hw; [done|].
    apply preserved_bind; [by apply IH | auto].
Qed.

Lemma preserved_run_operation op w : P w → P (after (run_operation op) w).
Proof.
  intros Hw. destruct op; simpl.
  - apply preserved_bind; [by apply P_addDecorator | done].
  - by apply P_removeDecorator.
  - apply preserved_bind; [by apply preserved_decorateAll | done].
  - apply preserved_bind; [by apply P_addHook | done].
  - by apply P_removeHook.
  - by apply preserved_run_remover.
Qed.

Lemma preserved_run_operations ops w : P w → P (after (run_operations ops) w).
Proof.
  revert w. induction ops as [|op ops IH]; intros w Hw; [done|].
  unfold run_operations. simpl. apply preserved_bind; [by apply preserved_run_operation|].
  intros _ w1 Hw1. by apply IH.
Qed.
End Preserved.

Lemma new_registries_ok c : registries_ok (new c).
Proof.
  split; [apply NoDup_nil_2|]. split_and!.
  - intros key. simpl. rewrite !lookup_empty. split.
    + by intros ?%elem_of_nil.
    + by intros [[? ?]|[? ?]].
  - intros key ds. simpl. by rewrite lookup_empty.
  - intros key r. simpl. by rewrite lookup_empty.
Qed.
(** ** The facade of a new wrapper *)

Lemma Object_get_cons {A} (k : Key) (a : A) (o : list (Key * A)) key :
  Object_get ((k, a) :: o) key = if bool_decide (k = key) then Some a else Object_get o key.
Proof. unfold Object_get. simpl. by case_bool_decide. Qed.

Lemma Object_get_None {A} (o : list (Key * A)) key :
  key ∉ Object_keys o → Object_get o key = None.
Proof.
  induction o as [|[k a] o IH]; [done|]. unfold Object_keys. simpl.
  intros [Hne Hnot]%not_elem_of_cons. rewrite Object_get_cons.
  rewrite bool_decide_eq_false_2 by congruence. by apply IH.
Qed.

Lemma Object_get_is_Some {A} (o : list (Key * A)) key :
  key ∈ Object_keys o → is_Some (Object_get o key).
Proof.
  induction o as [|[k a] o IH]; unfold Object_keys; simpl.
  - by intros ?%elem_of_nil.
  - rewrite Object_get_cons. case_bool_decide; [eauto|].
    intros [?|?]%elem_of_cons; [congruence | by apply IH].
Qed.


Lemma makeFacade_lookup (fs : list (Key * FnRef)) key :
  NoDup (Object_keys fs) →
  __makeFacade fs !! key = (λ command, Direct key (Some command)) <$> Object_get fs key.
Proof.
  unfold __makeFacade.
  assert (∀ acc : gmap Key FacadeFn, NoDup (Object_keys fs) →
    fold_left (λ facade entry, <[entry.1 := Direct entry.1 (Some entry.2)]> facade) fs acc
      !! key =
    match Object_get fs key with
    | Some command => Some (Direct key (Some command))
    | None => acc !! key
    end) as Hgen.
  { induction fs as [|[k c] fs IH]; intros acc Hnd; [done|].
    unfold Object_keys in Hnd. simpl in Hnd. apply NoDup_cons in Hnd as [Hk Hnd].
    simpl. rewrite IH by done. rewrite Object_get_cons.
    case_bool_decide as Heq.
    - subst. rewrite Object_get_None by done. apply lookup_insert_eq.
    - destruct (Object_get fs key); [done|]. by apply lookup_insert_ne. }
  intros Hnd. rewrite Hgen by done. destruct (Object_get fs key); [done|].
  apply lookup_empty.
Qed.

Lemma new_consistent c :
  NoDup (Object_keys (fns (class_definition c))) → consistent (new c).
Proof.
  intros Hnd. split; [apply new_registries_ok|]. split.
  - intros key Hkey. simpl in *. rewrite makeFacade_lookup by done.
    destruct (Object_get_is_Some _ _ Hkey) as [command Hget]. by rewrite Hget.
  - intros key. simpl. by intros ?%elem_of_nil.
Qed.

Lemma createDapi_new definition SuperClass w :
  createDapi definition SuperClass = Return w →
  ∃ c, DapiMixin definition SuperClass = Return c ∧ w = new c
       ∧ class_definition c = definition ∧ class_dependencies c = dependencies definition.
Proof.
  unfold createDapi. destruct (DapiMixin definition SuperClass) as [c|e] eqn:Hc; [|done].
  intros [= <-]. exists c. split_and!; [done | done | |];
    unfold DapiMixin in Hc; repeat case_match; by simplify_eq.
Qed.

(** C10: after any sequence of [addDecorator], [removeDecorator],
    [decorateAll], [addHook], [removeHook] and removers that completes
    without throwing on a new wrapper, a key is in the list of decorated
    keys exactly when the decorators registry or the hooks registry has an
    entry for it, no list of the decorators registry is empty, and every
    record of the hooks registry holds a pre-hook or a post-hook. *)
Theorem registries_agree_after_operations definition SuperClass w0 ops w :
  createDapi definition SuperClass = Return w0 →
  run_operations ops w0 = (Return tt, w) →
  registries_agree w.
Proof.
  intros (c & _ & -> & _)%createDapi_new Hrun.
  assert (registries_ok (after (run_operations ops) (new c))) as [_ Hagree].
  { apply preserved_run_operations;
      auto using addDecorator_agree, removeDecorator_agree, addHook_agree,
        removeHook_agree, new_registries_ok. }
  unfold after in Hagree. by rewrite Hrun in Hagree.
Qed.

Lemma registries_agree_after_operations_witness :
  ∃ w, run_operations Sample.sample_operations Sample.sample_wrapper = (Return tt, w)
       ∧ registries_agree w.
Proof.
  eexists. split; [vm_compute; reflexivity|].
  apply (registries_agree_after_operations Sample.sample_definition Sample.sample_methods
           Sample.sample_wrapper Sample.sample_operations); vm_compute; reflexivity.
Defined.
(** ** The chain of a decorated key *)

Section Chain.
Context {F : Functions}.
Implicit Types (this w : DapiWrapper) (s : World User).

Lemma nest_app this ds1 ds2 inner :
  nest this (ds1 ++ ds2) inner = nest this ds1 (nest this ds2 inner).
Proof. induction ds1 as [|d ds1 IH]; simpl; [done | by rewrite IH]. Qed.

(** [reduce] starts from the bound command and wraps it with each
    decorator in turn, so the last decorator of the list ends up outermost. *)
Lemma reduce_decorators_nest this ds inner :
  reduce_decorators (bind_decorator this <$> ds) inner = nest this (rev ds) inner.
Proof.
  unfold reduce_decorators. revert inner.
  induction ds as [|d ds IH]; intros inner; simpl; [done|].
  by rewrite IH, nest_app.
Qed.

Lemma decorable_call_nest this key command params :
  decorable_call this key (Some command) params =
    nest this (rev (default [] (decorators this !! key)))
      (hooked this key (call_command (Some command) this))
      (__deps this :: params).
Proof.
  unfold decorable_call, hooked.
  destruct (__hookDecorator this key) as [hd|].
  - simpl. rewrite reduce_decorators_nest. reflexivity.
  - destruct (default [] (decorators this !! key)) as [|d ds] eqn:Hds; [reflexivity|].
    rewrite bool_decide_eq_false_2 by done.
    rewrite reduce_decorators_nest. reflexivity.
Qed.

Lemma bind_decorator_transparent this d next args s :
  transparent d →
  bind_decorator this d next args s = next args (with_calls (push (DecoratorCalled d args)) s).
Proof. intros Hd. unfold bind_decorator, bind, record_call, modify. simpl. by rewrite Hd. Qed.

Lemma nest_transparent this ds inner args s :
  Forall transparent ds →
  nest this ds inner args s = inner args (with_calls (λ c, c ++ entering ds args) s).
Proof.
  intros Hds. revert s. induction Hds as [|d ds Hd Hds IH]; intros s; simpl.
  - unfold with_calls, entering. simpl. by rewrite app_nil_r.
  - rewrite bind_decorator_transparent by done. rewrite IH.
    unfold with_calls, entering, push. simpl. by rewrite <- app_assoc.
Qed.

End Chain.
(** ** The order of the decorators *)

Section Order.
Context {F : Functions}.

Lemma call_decorable w key command params :
  __facade w !! key = Some (Decorable key (Some command)) →
  call w key params =
    nest w (rev (default [] (decorators w !! key)))
      (hooked w key (call_command (Some command) w)) (__deps w :: params).
Proof. intros Hf. unfold call. rewrite Hf. simpl. apply decorable_call_nest. Qed.

Lemma call_direct w key command params :
  __facade w !! key = Some (Direct key (Some command)) →
  call w key params = call_command (Some command) w (__deps w :: params).
Proof. intros Hf. unfold call. by rewrite Hf. Qed.

(** C1 (amended): the call of a decorated key nests the decorators of the
    key in the reverse of their order of registration around the hook
    decorator, which wraps the command: the decorator registered last is
    the outermost wrapper, each decorator receives as [next] the chain of
    the decorators registered before it, the decorator registered first
    receives the hook decorator (or the command when the key has no hooks),
    and the chain is called with the dependencies followed by the call-site
    arguments. *)
Theorem last_registered_decorator_is_outermost w key command params :
  __facade w !! key = Some (Decorable key (Some command)) →
  call w key params =
    nest w (rev (default [] (decorators w !! key)))
      (hooked w key (call_command (Some command) w)) (__deps w :: params)
  ∧ (∀ first later, decorators w !! key = Some (first :: later) →
       call w key params =
         nest w (rev later)
           (bind_decorator w first (hooked w key (call_command (Some command) w)))
           (__deps w :: params))
  ∧ (∀ earlier last, decorators w !! key = Some (earlier ++ [last]) →
       call w key params =
         bind_decorator w last
           (nest w (rev earlier) (hooked w key (call_command (Some command) w)))
           (__deps w :: params)).
Proof.
  intros Hf. rewrite (call_decorable w key command params Hf). split_and!.
  - reflexivity.
  - intros first later ->. simpl. by rewrite nest_app.
  - intros earlier last ->. simpl. by rewrite rev_unit.
Qed.

End Order.

Lemma last_registered_decorator_is_outermost_witness :
  call Scenario.two_decorators "double" [VNumber 5] =
    bind_decorator Scenario.two_decorators 11%nat
      (nest Scenario.two_decorators (rev [10%nat])
         (hooked Scenario.two_decorators "double"
            (call_command (Some 0%nat) Scenario.two_decorators)))
      (__deps Scenario.two_decorators :: [VNumber 5]).
Proof.
  apply (last_registered_decorator_is_outermost Scenario.two_decorators "double" 0%nat
           [VNumber 5]); [vm_compute; reflexivity|].
  vm_compute. reflexivity.
Defined.

(** C1 as the specification words it fails: with [10] registered before
    [11], [double(5)] is [(5 * 2 + 1) * 3], not [5 * 2 * 3 + 1]. *)
Lemma first_registered_decorator_is_not_outermost :
  ¬ first_registered_outermost Scenario.two_decorators "double" 0%nat [VNumber 5]
      Sample.empty_world.
Proof. unfold first_registered_outermost. vm_compute. discriminate. Qed.

(** The decorator registered last is entered first. *)
Example second_decorator_runs_first :
  call Scenario.two_decorators "double" [VNumber 5] Sample.empty_world =
    (Return (VNumber 33),
     {| user := 0%nat;
        calls := [DecoratorCalled 11 [VObject [("foo", VString "bar")]; VNumber 5];
                  DecoratorCalled 10 [VObject [("foo", VString "bar")]; VNumber 5];
                  CommandCalled 0 [VObject [("foo", VString "bar")]; VNumber 5]];
        reactions := [] |}).
Proof. vm_compute. reflexivity. Qed.
(** ** The facade of a new wrapper calls the commands *)

Section Facade.
Context {F : Functions}.

Lemma call_command_run command this args (s : World User) :
  call_command (Some command) this args s =
    ((command_body command this args (user s)).1,
     with_user (command_body command this args (user s)).2
       (with_calls (push (CommandCalled command args)) s)).
Proof.
  unfold call_command, bind, record_call, modify, run_user. simpl.
  by destruct (command_body command this args (user s)).
Qed.

(** C2: on the wrapper made from a valid definition, calling a key of the
    function map calls the function of the definition once, with the
    wrapper as [this] and with the wrapper's current dependencies followed
    by the arguments of the call, and returns or throws what the function
    returns or throws. *)
Theorem facade_calls_the_function definition SuperClass w key command params
    (s : World User) :
  NoDup (Object_keys (fns definition)) →
  createDapi definition SuperClass = Return w →
  Object_get (fns definition) key = Some command →
  call w key params s =
    ((command_body command w (__deps w :: params) (user s)).1,
     with_user (command_body command w (__deps w :: params) (user s)).2
       (with_calls (push (CommandCalled command (__deps w :: params))) s)).
Proof.
  intros Hnd (c & _ & -> & Hdef & _)%createDapi_new Hget.
  rewrite (call_direct (new c) key command).
  - apply call_command_run.
  - simpl. rewrite Hdef, makeFacade_lookup by done. by rewrite Hget.
Qed.

End Facade.

Lemma facade_calls_the_function_witness :
  call Sample.sample_wrapper "double" [VNumber 5] Sample.empty_world =
    (Return (VNumber 10),
     {| user := 0%nat;
        calls := [CommandCalled 0 [VObject [("foo", VString "bar")]; VNumber 5]];
        reactions := [] |}).
Proof.
  rewrite (facade_calls_the_function Sample.sample_definition Sample.sample_methods
             Sample.sample_wrapper "double" 0%nat [VNumber 5] Sample.empty_world).
  - vm_compute. reflexivity.
  - compute_done.
  - vm_compute. reflexivity.
  - vm_compute. reflexivity.
Defined.

(** ** Registration under a key that the function map lacks *)

(** C6: for a key that is not an entry of the function map, [addDecorator]
    and [addHook] throw a [TypeError] and leave the wrapper, and so each of
    its registries, as it was. *)
Theorem registration_rejects_unknown_key w key fn t :
  key ∉ Object_keys (fns (__definition w)) →
  addDecorator key fn w =
    (Throw (TypeError (if inherited_method w key
                       then "Cannot decorate non-Dapi function property"
                       else "Cannot decorate non-function property")
              (VObject [("key", VString key)])), w)
  ∧ addHook t key fn w =
      (Throw (TypeError "Cannot hook to non-function property"
                (VObject [("key", VString key)])), w).
Proof.
  intros Hkey. split.
  - rewrite addDecorator_run. unfold Object_hasOwn.
    rewrite (bool_decide_eq_false_2 _ Hkey). simpl.
    unfold typeof_member_is_function, Object_hasOwn.
    rewrite (bool_decide_eq_false_2 _ Hkey). simpl.
    by destruct (inherited_method w key).
  - rewrite addHook_run. apply includes_false in Hkey. by rewrite Hkey.
Qed.

Lemma registration_rejects_unknown_key_witness :
  addDecorator "toString" 10%nat Sample.sample_wrapper =
    (Throw (TypeError "Cannot decorate non-Dapi function property"
              (VObject [("key", VString "toString")])), Sample.sample_wrapper)
  ∧ addHook Pre "toString" 10%nat Sample.sample_wrapper =
      (Throw (TypeError "Cannot hook to non-function property"
                (VObject [("key", VString "toString")])), Sample.sample_wrapper).
Proof.
  apply (registration_rejects_unknown_key Sample.sample_wrapper "toString" 10%nat Pre).
  compute_done.
Defined.
(** ** Dependencies *)

Lemma get_prop_cons k k' v props :
  get_prop k ((k', v) :: props) = if bool_decide (k' = k) then Some v else get_prop k props.
Proof. unfold get_prop. simpl. by case_bool_decide. Qed.

Lemma get_prop_None k props : k ∉ props.*1 → get_prop k props = None.
Proof.
  induction props as [|[k' v] props IH]; [done|]. simpl.
  intros [Hne Hnot]%not_elem_of_cons. rewrite get_prop_cons.
  rewrite bool_decide_eq_false_2 by congruence. by apply IH.
Qed.

Lemma get_set_prop k k' v props :
  get_prop k (set_prop k' v props) = if bool_decide (k' = k) then Some v else get_prop k props.
Proof.
  induction props as [|[k0 v0] props IH]; simpl.
  - rewrite get_prop_cons. by case_bool_decide.
  - destruct (bool_decide (k0 = k')) eqn:H0.
    + apply bool_decide_eq_true in H0 as ->. rewrite !get_prop_cons.
      by case_bool_decide.
    + apply bool_decide_eq_false in H0. rewrite !get_prop_cons, IH.
      repeat case_bool_decide; congruence.
Qed.

(** The properties of [{...target, ...source}]: those of [source], and
    those of [target] that [source] does not define. *)
Lemma get_prop_spread_into k target source :
  well_formed_object source →
  get_prop k (spread_into target source) =
    match get_prop k (own_enumerable source) with
    | Some v => Some v
    | None => get_prop k target
    end.
Proof.
  unfold well_formed_object, spread_into.
  generalize (own_enumerable source) as props. intros props. revert target.
  induction props as [|[k' v'] props IH]; intros target Hnd; [done|].
  simpl in *. apply NoDup_cons in Hnd as [Hk' Hnd].
  rewrite IH by done. rewrite get_prop_cons, get_set_prop.
  case_bool_decide as Heq; [|done].
  subst. by rewrite get_prop_None.
Qed.

Section Dependencies.
Context {F : Functions}.


End Dependencies.

(** ** Removal by identity *)

Lemma unmakeDecorable_noop key w :
  registries_agree w → after (unmakeDecorable key) w = w.
Proof.
  intros (Hiff & _). unfold after. rewrite unmakeDecorable_run. simpl.
  destruct (includes key (__decoratedFns w)) eqn:Hin; simpl; [|done].
  apply includes_true, Hiff in Hin.
  destruct Hin as [Hs|Hs].
  - by rewrite (bool_decide_eq_true_2 _ Hs).
  - rewrite (bool_decide_eq_true_2 _ Hs). by rewrite orb_true_r.
Qed.

Lemma removeDecorator_absent key decorator w :
  registries_agree w →
  (∀ ds, decorators w !! key = Some ds → decorator ∉ ds) →
  removeDecorator key decorator w = (Return tt, w).
Proof.
  intros Hagree Habs. rewrite removeDecorator_run.
  assert (with_decorators (registry_remove key decorator) w = w) as ->.
  { unfold with_decorators. rewrite registry_remove_absent; [done|].
    intros ds Hds. destruct Hagree as (_ & Hne & _). eauto. }
  by rewrite unmakeDecorable_noop.
Qed.








(** [removeHook] reads the list of the hook type from the record of the key
    before it tests that the record exists, so it throws when the key has
    no record: on a key that never had a hook, and at the second call of
    the remover that [addHook] returned. *)
Example removeHook_without_record_throws :
  removeHook Pre "double" 20%nat Sample.sample_wrapper
    = (Throw (cannot_read_undefined "pre"), Sample.sample_wrapper)
  ∧ ∃ r w1 w2,
      addHook Pre "double" 20%nat Sample.sample_wrapper = (Return r, w1)
      ∧ run_remover r w1 = (Return tt, w2)
      ∧ run_remover r w2 = (Throw (cannot_read_undefined "pre"), w2).
Proof.
  split; [vm_compute; reflexivity|].
  eexists _, _, _. split_and!; vm_compute; reflexivity.
Qed.
(** ** [decorateAll] and its remover *)


Lemma splice1_indexOf_other `{EqDecision A} (x y : A) l :
  x ∈ l → y ≠ x → y ∈ splice1 (indexOf x l) l ↔ y ∈ l.
Proof.
  intros Hx Hne.
  destruct (splice1_indexOf x l Hx) as (l1 & l2 & -> & Hl1 & ->).
  rewrite !elem_of_app, elem_of_cons. naive_solver.
Qed.




Lemma addDecorator_after key fn w :
  after (addDecorator key fn) w =
    if Object_hasOwn (fns (__definition w)) key
    then after (__makeDecorable key) (with_decorators (registry_add key fn) w)
    else w.
Proof.
  unfold after at 1. rewrite addDecorator_run. unfold typeof_member_is_function.
  by destruct (Object_hasOwn (fns (__definition w)) key), (inherited_method w key).
Qed.

Lemma removeDecorator_after key fn w :
  after (removeDecorator key fn) w =
    after (unmakeDecorable key) (with_decorators (registry_remove key fn) w).
Proof. unfold after at 1. by rewrite removeDecorator_run. Qed.

Lemma removeDecorator_definition key fn w :
  __definition (after (removeDecorator key fn) w) = __definition w.
Proof.
  rewrite removeDecorator_after.
  by destruct (unmakeDecorable_fields key (with_decorators (registry_remove key fn) w))
    as (-> & _).
Qed.

Lemma addDecorator_definition key fn w :
  __definition (after (addDecorator key fn) w) = __definition w.
Proof.
  rewrite addDecorator_after. destruct (Object_hasOwn _ key); [|done].
  by destruct (makeDecorable_fields key (with_decorators (registry_add key fn) w))
    as (-> & _).
Qed.



Lemma undecorated_each_cons fn key keys w :
  undecorated_each fn (key :: keys) w
  = undecorated_each fn keys (after (removeDecorator key fn) w).
Proof. reflexivity. Qed.



Lemma run_remover_each keys fn w :
  run_remover (RemoveAll ((λ key, RemoveDecorator key fn) <$> keys)) w =
    (Return tt, undecorated_each fn keys w).
Proof.
  revert w. induction keys as [|key keys IH]; intros w; [done|].
  simpl in *. unfold bind. rewrite removeDecorator_run.
  change (after (unmakeDecorable key) (with_decorators (registry_remove key fn) w))
    with ((Return tt, after (unmakeDecorable key)
                        (with_decorators (registry_remove key fn) w)).2).
  rewrite <- removeDecorator_run. apply IH.
Qed.



Section Undo.
Context {F : Functions}.


End Undo.


(** ** The hook decorator *)

Section Hooks.
Context {F : Functions}.
Implicit Types (w this : DapiWrapper) (s : World User).

Lemma hooked_without_hooks this key method :
  hooks this !! key = None → hooked this key method = method.
Proof.
  intros Hr. unfold hooked, __hookDecorator. rewrite Hr.
  rewrite bool_decide_eq_false_2; [done|]. by intros [? ?].
Qed.

(** What the hook decorator of a key with a hook record does: the
    pre-hooks, the method, and then either a reaction on the promise the
    method returned or the post-hooks. *)
Lemma hooked_run this key r method args s :
  hooks this !! key = Some r →
  hooked this key method args s =
    match for_of (pre r) (call_hook Pre this args) s with
    | (Throw e, s1) => (Throw e, s1)
    | (Return _, s1) =>
        match method args s1 with
        | (Throw e, s2) => (Throw e, s2)
        | (Return result, s2) =>
            match result with
            | VPromise fate =>
                (Return result,
                 with_reactions
                   (push {| awaited := fate; hooked_key := key;
                            post_array := record_id r; hook_args := args |}) s2)
            | _ =>
                match for_of (post r) (call_hook Post this args) s2 with
                | (Throw e, s3) => (Throw e, s3)
                | (Return _, s3) => (Return result, s3)
                end
            end
        end
    end.
Proof.
  intros Hr. unfold hooked, __hookDecorator. rewrite Hr.
  rewrite bool_decide_eq_true_2 by eauto. simpl. unfold bind.
  destruct (for_of (pre r) (call_hook Pre this args) s) as [[[]|e] s1]; [|done].
  destruct (method args s1) as [[result|e] s2]; [|done].
  destruct result; try done;
    by destruct (for_of (post r) (call_hook Post this args) s2) as [[[]|e] s3].
Qed.

(** *** What a call records *)

Lemma adds_refl Q R s : adds Q R s s.
Proof. exists [], []. by rewrite !app_nil_r. Qed.

Lemma adds_trans Q R s1 s2 s3 : adds Q R s1 s2 → adds Q R s2 s3 → adds Q R s1 s3.
Proof.
  intros (e1 & r1 & Hc1 & Hr1 & HQ1 & HR1) (e2 & r2 & Hc2 & Hr2 & HQ2 & HR2).
  exists (e1 ++ e2), (r1 ++ r2). rewrite Hc2, Hc1, Hr2, Hr1, !app_assoc.
  split_and!; [done | done | by apply Forall_app | by apply Forall_app].
Qed.

Lemma adds_event Q R s e : Q e → adds Q R s (with_calls (push e) s).
Proof. intros He. exists [e], []. simpl. rewrite app_nil_r. by repeat constructor. Qed.

Lemma adds_events Q R s events :
  Forall Q events → adds Q R s (with_calls (λ c, c ++ events) s).
Proof. intros He. exists events, []. simpl. by rewrite app_nil_r. Qed.

Lemma adds_reaction Q (R : Reaction → Prop) s r :
  R r → adds Q R s (with_reactions (push r) s).
Proof. intros Hr. exists [], [r]. simpl. rewrite app_nil_r. by repeat constructor. Qed.

Lemma adds_user Q R s u : adds Q R s (with_user u s).
Proof. exists [], []. simpl. by rewrite !app_nil_r. Qed.

Lemma call_hook_adds Q R t this args h s :
  Q (HookCalled t h args) → adds Q R s (call_hook t this args h s).2.
Proof.
  intros HQ. unfold call_hook, bind, record_call, modify, run_user, ret. simpl.
  destruct (hook_body h this args (user s)) as [[v|e] u]; simpl;
    (eapply adds_trans; [by apply adds_event | apply adds_user]).
Qed.

Lemma for_of_call_hook_adds Q R t this args hs s :
  (∀ h, Q (HookCalled t h args)) → adds Q R s (for_of hs (call_hook t this args) s).2.
Proof.
  intros HQ. revert s. induction hs as [|h hs IH]; intros s; [apply adds_refl|].
  simpl. unfold bind.
  pose proof (call_hook_adds Q R t this args h s (HQ h)) as Hh.
  destruct (call_hook t this args h s) as [[[]|e] s1]; simpl in *; [|done].
  eapply adds_trans; [done | apply IH].
Qed.

Lemma call_command_adds Q R command this args s :
  Q (CommandCalled command args) → adds Q R s (call_command (Some command) this args s).2.
Proof.
  intros HQ. rewrite call_command_run. simpl.
  eapply adds_trans; [by apply adds_event | apply adds_user].
Qed.

Lemma hooked_adds Q R this key command args s :
  admits args Q → (∀ r, hook_args r = args → R r) →
  adds Q R s (hooked this key (call_command (Some command) this) args s).2.
Proof.
  intros (Hc & _ & Hh & _) HR.
  destruct (hooks this !! key) as [r|] eqn:Hr.
  - rewrite (hooked_run this key r) by done.
    pose proof (for_of_call_hook_adds Q R Pre this args (pre r) s (Hh Pre)) as Hpre.
    destruct (for_of (pre r) (call_hook Pre this args) s) as [[[]|e] s1]; [|done].
    pose proof (call_command_adds Q R command this args s1 (Hc command)) as Hcmd.
    destruct (call_command (Some command) this args s1) as [[result|e] s2];
      [|by eapply adds_trans].
    assert (adds Q R s s2) as Hs2 by (by eapply adds_trans).
    pose proof (for_of_call_hook_adds Q R Post this args (post r) s2 (Hh Post)) as Hpost.
    destruct result;
      try (destruct (for_of (post r) (call_hook Post this args) s2) as [[[]|e] s3];
           by eapply adds_trans).
    simpl. eapply adds_trans; [done|]. by apply adds_reaction, HR.
  - rewrite hooked_without_hooks by done. by apply call_command_adds.
Qed.

End Hooks.
Section Settling.
Context {F : Functions}.
Implicit Types (w this : DapiWrapper) (s : World User).

Lemma run_reaction_adds Q R this r s :
  (∀ t h, Q (HookCalled t h (hook_args r))) → adds Q R s (run_reaction this r s).2.
Proof.
  intros HQ. unfold run_reaction. destruct (awaited r); try apply adds_refl.
  apply for_of_call_hook_adds. apply HQ.
Qed.

Lemma settle_promises_adds Q R this s :
  (∀ r t h, r ∈ reactions s → Q (HookCalled t h (hook_args r))) →
  (∀ e, Q (UnhandledRejection e)) →
  adds Q R (with_reactions (filter (λ r, is_pending r = true)) s) (settle_promises this s).
Proof.
  intros Hrs Hun. unfold settle_promises.
  generalize (with_reactions (filter (λ r, is_pending r = true)) s) as s0.
  induction (reactions s) as [|r rs IH]; intros s0; [apply adds_refl|]. simpl.
  eapply adds_trans; [|apply IH; intros; apply Hrs; by right].
  pose proof (run_reaction_adds Q R this r s0) as Hr.
  destruct (run_reaction this r s0) as [[[]|e] s1]; simpl in *.
  - apply Hr. intros. apply Hrs. left.
  - eapply adds_trans; [apply Hr; intros; apply Hrs; left | by apply adds_event].
Qed.




End Settling.
Section PostHooks.
Context {F : Functions}.
Implicit Types (w this : DapiWrapper) (s : World User).

(** The call of a decorated key whose decorators pass the call on: the
    decorators are entered and the hooked command runs. *)
Lemma call_transparent w key command params s :
  __facade w !! key = Some (Decorable key (Some command)) →
  Forall transparent (default [] (decorators w !! key)) →
  call w key params s =
    hooked w key (call_command (Some command) w) (__deps w :: params)
      (with_calls
         (λ c, c ++ entering (rev (default [] (decorators w !! key))) (__deps w :: params))
         s).
Proof.
  intros Hf Hds. rewrite (call_decorable w key command params Hf).
  apply nest_transparent. by apply Forall_rev.
Qed.

Lemma drop_calls (s : World User) events :
  drop (length (calls s)) (calls s ++ events) = events.
Proof. by rewrite drop_app_length. Qed.



End PostHooks.


(** What the world records for a call of [fail], whose promise rejects:
    the command, and the rejection of the promise made by [then]. *)
Example rejected_call_runs_no_post_hook :
  events_of_call Scenario.with_post_hooks "fail" [VNumber 5] Sample.empty_world
    = [CommandCalled 2 [VObject [("foo", VString "bar")]; VNumber 5];
       UnhandledRejection Sample.boom]
  ∧ events_of_call Scenario.with_post_hooks "echo" [VNumber 5] Sample.empty_world
    = [CommandCalled 1 [VObject [("foo", VString "bar")]; VNumber 5];
       HookCalled Post 20 [VObject [("foo", VString "bar")]; VNumber 5]]
  ∧ events_of_call Scenario.with_post_hooks "double" [VNumber 5] Sample.empty_world
    = [CommandCalled 0 [VObject [("foo", VString "bar")]; VNumber 5];
       HookCalled Post 20 [VObject [("foo", VString "bar")]; VNumber 5]].
Proof. split_and!; vm_compute; reflexivity. Qed.

(** ** The arguments of the hooks *)

Section HookArguments.
Context {F : Functions}.
Implicit Types (w this : DapiWrapper) (s : World User).

(** What the hook decorator and the settling of its promise record, when
    no reaction was waiting, and the same for a call. *)
Lemma settled_adds Q this args (s s' : World User) :
  reactions s = [] → admits args Q →
  adds Q (λ r, hook_args r = args) s s' →
  ∃ events, calls (settle_promises this s') = calls s ++ events ∧ Forall Q events.
Proof.
  intros Hs HQ (events & rs & Hcalls & Hrs & Hev & HR).
  pose proof (settle_promises_adds Q (λ _, True) this s')
    as (events' & _ & Hcalls' & _ & Hev' & _).
  { intros r t h Hr. rewrite Hrs, Hs in Hr. simpl in Hr.
    rewrite Forall_forall in HR. rewrite (HR r Hr). apply HQ. }
  { apply HQ. }
  exists (events ++ events'). simpl in Hcalls'.
  rewrite Hcalls', Hcalls, <- app_assoc. split; [done | by apply Forall_app].
Qed.

Lemma events_of_hooked_admitted Q w key command args s :
  reactions s = [] → admits args Q →
  Forall Q (events_of_hooked w key command args s).
Proof.
  intros Hs HQ.
  destruct (settled_adds Q w args s
              (hooked w key (call_command (Some command) w) args s).2 Hs HQ)
    as (events & Hcalls & Hev); [by apply hooked_adds|].
  unfold events_of_hooked. by rewrite Hcalls, drop_calls.
Qed.

Lemma events_of_call_admitted Q w key command params s :
  __facade w !! key = Some (Decorable key (Some command)) →
  Forall transparent (default [] (decorators w !! key)) →
  reactions s = [] →
  admits (__deps w :: params) Q →
  Forall Q (events_of_call w key params s).
Proof.
  intros Hf Hds Hs HQ.
  destruct (settled_adds Q w (__deps w :: params) s (call w key params s).2 Hs HQ)
    as (events & Hcalls & Hev).
  { rewrite (call_transparent w key command params s Hf Hds).
    eapply adds_trans; [|by apply hooked_adds].
    apply adds_events. unfold entering. apply Forall_fmap, Forall_true.
    intros d. simpl. apply HQ. }
  unfold events_of_call. by rewrite Hcalls, drop_calls.
Qed.

Lemma hook_arguments_admitted args events :
  Forall (λ e, match e with HookCalled _ _ a => a = args | _ => True end) events →
  ∀ a, a ∈ hook_arguments events → a = args.
Proof.
  intros Hall a Ha. unfold hook_arguments in Ha.
  apply list_elem_of_omap in Ha as (e & He & Hsome).
  rewrite Forall_forall in Hall. specialize (Hall e He).
  destruct e; simplify_eq. done.
Qed.

(** C3 (amended): every hook that the hook decorator of a key calls is
    given the arguments the hook decorator received; for a call of a key
    whose decorators pass the arguments on, these are the dependencies
    followed by the arguments of the call. *)
Theorem hooks_receive_dependencies_and_arguments w key command :
  (∀ args s, reactions s = [] →
     ∀ a, a ∈ hook_arguments (events_of_hooked w key command args s) → a = args)
  ∧ (∀ params s,
       __facade w !! key = Some (Decorable key (Some command)) →
       Forall transparent (default [] (decorators w !! key)) →
       reactions s = [] →
       ∀ a, a ∈ hook_arguments (events_of_call w key params s) →
         a = __deps w :: params).
Proof.
  split.
  - intros args s Hs. apply hook_arguments_admitted.
    apply events_of_hooked_admitted; [done|]. by split_and!.
  - intros params s Hf Hds Hs. apply hook_arguments_admitted.
    apply (events_of_call_admitted _ w key command); [done..|]. by split_and!.
Qed.

End HookArguments.

Lemma hooks_receive_dependencies_and_arguments_witness :
  Forall (λ args, args = [VObject [("foo", VString "bar")]; VNumber 5])
    (hook_arguments
       (events_of_call Scenario.with_post_hooks "double" [VNumber 5] Sample.empty_world)).
Proof.
  apply Forall_forall.
  destruct (hooks_receive_dependencies_and_arguments Scenario.with_post_hooks "double"
              0%nat) as [_ Hcall].
  apply (Hcall [VNumber 5] Sample.empty_world).
  - vm_compute. reflexivity.
  - assert (decorators Scenario.with_post_hooks !! "double" = None) as ->
      by (vm_compute; reflexivity).
    constructor.
  - reflexivity.
Defined.

(** C3 as stated fails: the post-hook of [double] is called with the
    dependencies in front of the argument of the call. *)
Lemma hooks_receive_the_dependencies :
  ¬ hooks_see_call_site_arguments Scenario.with_post_hooks "double" [VNumber 5]
      Sample.empty_world.
Proof.
  intros Hsee.
  specialize (Hsee [VObject [("foo", VString "bar")]; VNumber 5]).
  assert ([VObject [("foo", VString "bar")]; VNumber 5] = [VNumber 5]) as Heq.
  { apply Hsee. vm_compute. left. }
  discriminate.
Qed.
(** ** Errors *)

Section Errors.
Context {F : Functions}.
Implicit Types (w this : DapiWrapper) (s : World User).

Lemma bind_decorator_run this d next args s :
  bind_decorator this d next args s =
    decorator_body d this next args (with_calls (push (DecoratorCalled d args)) s).
Proof. reflexivity. Qed.



End Errors.



(** What the caller of [echo] gets and what the world records. *)
Example fulfilled_echo_loses_hook_error :
  (call Scenario.with_throwing_post_hook "echo" [VNumber 5] Sample.empty_world).1
    = Return (VPromise (Fulfils (VNumber 5)))
  ∧ events_of_call Scenario.with_throwing_post_hook "echo" [VNumber 5] Sample.empty_world
    = [CommandCalled 1 [VObject [("foo", VString "bar")]; VNumber 5];
       HookCalled Post 21 [VObject [("foo", VString "bar")]; VNumber 5];
       UnhandledRejection Sample.boom].
Proof. split; vm_compute; reflexivity. Qed.
(** ** The wrappers a client can reach *)

Lemma addHook_definition t key hook w :
  __definition (after (addHook t key hook) w) = __definition w.
Proof.
  unfold after at 1. rewrite addHook_run.
  destruct (negb (includes key _)); [done|]. simpl.
  destruct (makeDecorable_fields key (hook_added t key hook w)) as (-> & _).
  by destruct (hook_added_fields t key hook w) as (_ & -> & _).
Qed.

Lemma removeHook_definition t key hook w :
  __definition (after (removeHook t key hook) w) = __definition w.
Proof.
  unfold after at 1. rewrite removeHook_run.
  destruct (hooks w !! key) as [r|]; [|done]. simpl.
  by destruct (unmakeDecorable_fields key (with_hooks (hooks_remove t key hook r) w))
    as (-> & _).
Qed.

(** Every wrapper reached from a new one by registration calls is
    consistent and keeps the function map of its definition. *)
Lemma consistent_after_operations definition SuperClass w0 ops :
  NoDup (Object_keys (fns definition)) →
  createDapi definition SuperClass = Return w0 →
  consistent (after (run_operations ops) w0)
  ∧ fns (__definition (after (run_operations ops) w0)) = fns definition.
Proof.
  intros Hnd (c & _ & -> & Hdef & _)%createDapi_new. split.
  - apply preserved_run_operations;
      auto using addDecorator_consistent, removeDecorator_consistent, addHook_consistent,
        removeHook_consistent.
    apply new_consistent. by rewrite Hdef.
  - apply (preserved_run_operations (λ w, fns (__definition w) = fns definition)).
    + intros key d w <-. by rewrite addDecorator_definition.
    + intros key d w <-. by rewrite removeDecorator_definition.
    + intros t key h w <-. by rewrite addHook_definition.
    + intros t key h w <-. by rewrite removeHook_definition.
    + simpl. by rewrite Hdef.
Qed.
(** * Further properties *)

(** ** Construction *)

Lemma spread_into_fresh props :
  NoDup props.*1 → spread_into [] (VObject props) = props.
Proof.
  unfold spread_into. simpl.
  assert (∀ target, NoDup (target.*1 ++ props.*1) →
            fold_left (λ acc kv, set_prop kv.1 kv.2 acc) props target = target ++ props)
    as Hgen.
  { induction props as [|[k v] props IH]; intros target Hnd; simpl.
    - by rewrite app_nil_r.
    - assert (set_prop k v target = target ++ [(k, v)]) as ->.
      { apply NoDup_app in Hnd as (_ & Hdisj & _).
        assert (k ∉ target.*1) as Hk.
        { intros Hin. apply (Hdisj k Hin). simpl. left. }
        clear -Hk. induction target as [|[k' v'] target IH]; simpl; [done|].
        rewrite fmap_cons in Hk. simpl in Hk.
        apply not_elem_of_cons in Hk as [Hne Hk].
        rewrite bool_decide_eq_false_2 by done. by rewrite IH. }
      rewrite IH; [by rewrite <- app_assoc|].
      rewrite fmap_app. simpl. rewrite <- app_assoc. done. }
  intros Hnd. by rewrite Hgen.
Qed.



(** X2: the dependencies of a new wrapper are a shallow copy of the
    dependencies of the definition: always an object, with the own
    enumerable properties of the original, and the definition keeps the
    original. *)
Theorem new_wrapper_copies_dependencies definition SuperClass w :
  createDapi definition SuperClass = Return w →
  (∃ props, getDependencies w = (Return (VObject props), w)
            ∧ (well_formed_object (dependencies definition) →
               ∀ k, get_prop k props = get_prop k (own_enumerable (dependencies definition))))
  ∧ (∀ props, dependencies definition = VObject props → NoDup props.*1 →
       __deps w = VObject props)
  ∧ dependencies (__definition w) = dependencies definition.
Proof.
  intros (c & _ & -> & Hdef & Hdeps)%createDapi_new. split_and!.
  - eexists. split; [reflexivity|]. intros Hwf k. rewrite Hdeps.
    rewrite get_prop_spread_into by done.
    by destruct (get_prop k (own_enumerable (dependencies definition))).
  - intros props Hprops Hnd. simpl. rewrite Hdeps, Hprops. by rewrite spread_into_fresh.
  - simpl. by rewrite Hdef.
Qed.

Lemma new_wrapper_copies_dependencies_witness :
  __deps Sample.sample_wrapper = VObject [("foo", VString "bar")].
Proof.
  destruct (new_wrapper_copies_dependencies Sample.sample_definition Sample.sample_methods
              Sample.sample_wrapper) as (_ & Hcopy & _); [reflexivity|].
  apply Hcopy; [reflexivity | compute_done].
Defined.

(** ** What registration leaves alone *)

Lemma hook_added_deps t key hook w : __deps (hook_added t key hook w) = __deps w.
Proof. unfold hook_added. by destruct (negb _). Qed.

Lemma run_operation_keeps_dependencies op w :
  __deps (after (run_operation op) w) = __deps w
  ∧ __definition (after (run_operation op) w) = __definition w.
Proof.
  apply (preserved_run_operation (λ w', __deps w' = __deps w ∧ __definition w' = __definition w));
    [| | | |done].
  - intros key d w' [<- <-]. rewrite addDecorator_definition. split; [|done].
    rewrite addDecorator_after. destruct (Object_hasOwn _ key); [|done].
    by destruct (makeDecorable_fields key (with_decorators (registry_add key d) w'))
      as (_ & _ & _ & ->).
  - intros key d w' [<- <-]. rewrite removeDecorator_definition. split; [|done].
    rewrite removeDecorator_after.
    by destruct (unmakeDecorable_fields key (with_decorators (registry_remove key d) w'))
      as (_ & _ & _ & ->).
  - intros t key h w' [<- <-]. rewrite addHook_definition. split; [|done].
    unfold after at 1. rewrite addHook_run.
    destruct (negb (includes key _)); [done|]. simpl.
    destruct (makeDecorable_fields key (hook_added t key h w')) as (_ & _ & _ & ->).
    apply hook_added_deps.
  - intros t key h w' [<- <-]. rewrite removeHook_definition. split; [|done].
    unfold after at 1. rewrite removeHook_run.
    destruct (hooks w' !! key) as [r|]; [|done]. simpl.
    by destruct (unmakeDecorable_fields key (with_hooks (hooks_remove t key h r) w'))
      as (_ & _ & _ & ->).
Qed.

(** X3: registering and removing decorators and hooks never changes the
    dependencies of the wrapper nor its definition, whether the calls are
    made one after the other until one throws or each of them is made
    whatever the outcome of the ones before. *)
Theorem registrations_keep_dependencies ops w :
  (__deps (after (run_operations ops) w) = __deps w
   ∧ __definition (after (run_operations ops) w) = __definition w)
  ∧ (__deps (reached w (Registration <$> ops)) = __deps w
     ∧ __definition (reached w (Registration <$> ops)) = __definition w).
Proof.
  split.
  - revert w. induction ops as [|op ops IH]; intros w; [done|].
    unfold run_operations. simpl. rewrite after_bind.
    destruct (run_operation_keeps_dependencies op w) as [Hdeps Hdef].
    destruct (run_operation op w).1; [|done].
    destruct (IH (after (run_operation op) w)) as [H1 H2].
    unfold run_operations in H1, H2. cbv beta. by rewrite H1, H2.
  - revert w. induction ops as [|op ops IH]; intros w; [done|].
    destruct (run_operation_keeps_dependencies op w) as [Hdeps Hdef].
    rewrite fmap_cons.
    change (reached w (Registration op :: (Registration <$> ops)))
      with (reached (after (run_operation op) w) (Registration <$> ops)).
    destruct (IH (after (run_operation op) w)) as [-> ->]. done.
Qed.
(** ** The wrappers a client can reach, whatever it calls *)

Lemma setDependencies_after newDeps w :
  after (setDependencies newDeps) w =
    if truthy newDeps
    then with_definition (set_dependencies newDeps (__definition w)) (with_deps newDeps w)
    else w.
Proof. unfold after, setDependencies. by destruct (truthy newDeps). Qed.

Lemma updateDependencies_after newDeps w :
  after (updateDependencies newDeps) w =
    if truthy newDeps
    then after (setDependencies (VObject (spread_into (spread_into [] (__deps w)) newDeps))) w
    else w.
Proof. unfold after, updateDependencies. by destruct (truthy newDeps). Qed.

Lemma setDependencies_consistent newDeps w :
  consistent w → consistent (after (setDependencies newDeps) w).
Proof. intros Hw. rewrite setDependencies_after. by destruct (truthy newDeps). Qed.

Lemma setDependencies_fns newDeps w :
  fns (__definition (after (setDependencies newDeps) w)) = fns (__definition w).
Proof. rewrite setDependencies_after. by destruct (truthy newDeps). Qed.

Lemma run_action_consistent a w : consistent w → consistent (after (run_action a) w).
Proof.
  intros Hw. destruct a as [op|newDeps|newDeps|key]; simpl.
  - apply preserved_run_operation;
      auto using addDecorator_consistent, removeDecorator_consistent, addHook_consistent,
        removeHook_consistent.
  - by apply setDependencies_consistent.
  - rewrite updateDependencies_after. destruct (truthy newDeps); [|done].
    by apply setDependencies_consistent.
  - rewrite unmakeDecorable_noop; [done | apply Hw].
Qed.

Lemma run_action_fns a w :
  fns (__definition (after (run_action a) w)) = fns (__definition w).
Proof.
  destruct a as [op|newDeps|newDeps|key]; simpl.
  - apply (preserved_run_operation (λ w', fns (__definition w') = fns (__definition w)));
      [| | | |done].
    + intros k d w' <-. by rewrite addDecorator_definition.
    + intros k d w' <-. by rewrite removeDecorator_definition.
    + intros t k h w' <-. by rewrite addHook_definition.
    + intros t k h w' <-. by rewrite removeHook_definition.
  - apply setDependencies_fns.
  - rewrite updateDependencies_after. destruct (truthy newDeps); [|done].
    apply setDependencies_fns.
  - by destruct (unmakeDecorable_fields key w) as (-> & _).
Qed.

Lemma reached_snoc w0 actions a :
  reached w0 (actions ++ [a]) = after (run_action a) (reached w0 actions).
Proof. unfold reached. by rewrite fold_left_app. Qed.

Lemma reached_consistent definition SuperClass w0 actions :
  NoDup (Object_keys (fns definition)) →
  createDapi definition SuperClass = Return w0 →
  consistent (reached w0 actions)
  ∧ fns (__definition (reached w0 actions)) = fns definition.
Proof.
  intros Hnd (c & _ & -> & Hdef & _)%createDapi_new.
  induction actions as [|a actions IH] using rev_ind.
  - split; [|by simpl; rewrite Hdef]. apply new_consistent. by rewrite Hdef.
  - rewrite reached_snoc. destruct IH as [Hc Hf]. split.
    + by apply run_action_consistent.
    + by rewrite run_action_fns.
Qed.

Section Reached.
Context {F : Functions}.


End Reached.


(** X5: on every wrapper a client can reach from a new one, the decorated
    keys are listed once each, a key is listed exactly when it has a
    decorator or a hook, and a direct call of [unmakeDecorable] changes
    nothing. *)
Theorem unmakeDecorable_keeps_reached definition SuperClass w0 actions key :
  NoDup (Object_keys (fns definition)) →
  createDapi definition SuperClass = Return w0 →
  unmakeDecorable key (reached w0 actions) = (Return tt, reached w0 actions)
  ∧ NoDup (__decoratedFns (reached w0 actions))
  ∧ (key ∈ __decoratedFns (reached w0 actions) ↔
       is_Some (decorators (reached w0 actions) !! key)
       ∨ is_Some (hooks (reached w0 actions) !! key)).
Proof.
  intros Hnd Hnew.
  destruct (reached_consistent definition SuperClass w0 actions Hnd Hnew)
    as [[[Hnodup Hagree] _] _].
  split_and!; [|done|apply Hagree].
  rewrite unmakeDecorable_after. by rewrite unmakeDecorable_noop.
Qed.

Lemma unmakeDecorable_keeps_reached_witness :
  unmakeDecorable "double"
    (reached Sample.sample_wrapper [Registration (OpAddHook Post "double" 20%nat)])
  = (Return tt, reached Sample.sample_wrapper [Registration (OpAddHook Post "double" 20%nat)]).
Proof.
  apply (unmakeDecorable_keeps_reached Sample.sample_definition Sample.sample_methods
           Sample.sample_wrapper [Registration (OpAddHook Post "double" 20%nat)] "double");
    [compute_done | reflexivity].
Defined.
(** ** Registration is local to its key *)

Lemma makeDecorable_other key w k :
  k ≠ key →
  __facade (after (__makeDecorable key) w) !! k = __facade w !! k
  ∧ (k ∈ __decoratedFns (after (__makeDecorable key) w) ↔ k ∈ __decoratedFns w).
Proof.
  intros Hne. unfold after. rewrite makeDecorable_run. simpl.
  destruct (includes key (__decoratedFns w) || _); simpl; [done|].
  rewrite lookup_insert_ne by done. split; [done|].
  unfold push. rewrite elem_of_app, list_elem_of_singleton. naive_solver.
Qed.

Lemma unmakeDecorable_other key w k :
  k ≠ key →
  __facade (after (unmakeDecorable key) w) !! k = __facade w !! k
  ∧ (k ∈ __decoratedFns (after (unmakeDecorable key) w) ↔ k ∈ __decoratedFns w).
Proof.
  intros Hne. unfold after. rewrite unmakeDecorable_run. simpl.
  destruct (includes key (__decoratedFns w)) eqn:Hin; simpl; [|done].
  destruct (bool_decide (is_Some (decorators w !! key)) || _); simpl; [done|].
  rewrite lookup_insert_ne by done. split; [done|].
  apply splice1_indexOf_other; [by apply includes_true | done].
Qed.

Lemma same_at_make key k w w' :
  k ≠ key → same_at k w w' → same_at k w (after (__makeDecorable key) w').
Proof.
  intros Hne (Hd & Hh & Hf & Hin).
  destruct (makeDecorable_fields key w') as (_ & Hd' & Hh' & _).
  destruct (makeDecorable_other key w' k Hne) as [Hf' Hin'].
  unfold same_at. by rewrite Hd', Hh', Hf', Hin'.
Qed.

Lemma same_at_unmake key k w w' :
  k ≠ key → same_at k w w' → same_at k w (after (unmakeDecorable key) w').
Proof.
  intros Hne (Hd & Hh & Hf & Hin).
  destruct (unmakeDecorable_fields key w') as (_ & Hd' & Hh' & _).
  destruct (unmakeDecorable_other key w' k Hne) as [Hf' Hin'].
  unfold same_at. by rewrite Hd', Hh', Hf', Hin'.
Qed.

(** X6: adding or removing a decorator or a hook under a key leaves what
    the wrapper holds for every other key as it was: its decorators, its
    hooks, its facade function and whether it is listed as decorated. *)
Theorem registration_is_local key k fn t w :
  k ≠ key →
  same_at k w (after (addDecorator key fn) w)
  ∧ same_at k w (after (removeDecorator key fn) w)
  ∧ same_at k w (after (addHook t key fn) w)
  ∧ same_at k w (after (removeHook t key fn) w).
Proof.
  intros Hne. split_and!.
  - rewrite addDecorator_after. destruct (Object_hasOwn _ key); [|done].
    apply same_at_make; [done|]. split_and!; try done.
    simpl. by rewrite registry_add_eq, lookup_insert_ne.
  - rewrite removeDecorator_after. apply same_at_unmake; [done|]. split_and!; try done.
    simpl. by rewrite registry_remove_other.
  - unfold after at 1. rewrite addHook_run.
    destruct (negb (includes key _)); [done|]. simpl.
    apply same_at_make; [done|].
    destruct (hook_added_fields t key fn w) as (HdF & _ & Hdec & Hfac).
    unfold same_at. rewrite HdF, Hdec, Hfac. split_and!; try done.
    by apply hook_added_other.
  - unfold after at 1. rewrite removeHook_run.
    destruct (hooks w !! key) as [r|] eqn:Hr; [|done]. simpl.
    apply same_at_unmake; [done|]. split_and!; try done.
    simpl. by rewrite hooks_remove_other.
Qed.

Lemma registration_is_local_witness :
  same_at "echo" Scenario.two_decorators
    (after (removeDecorator "double" 10%nat) Scenario.two_decorators).
Proof.
  apply (registration_is_local "double" "echo" 10%nat Pre Scenario.two_decorators).
  discriminate.
Defined.

(** ** Removal by identity, one registration at a time *)

Lemma removeDecorator_decorators key fn w :
  decorators (after (removeDecorator key fn) w) = registry_remove key fn (decorators w).
Proof.
  rewrite removeDecorator_after.
  by destruct (unmakeDecorable_fields key (with_decorators (registry_remove key fn) w))
    as (_ & -> & _).
Qed.

Lemma removeDecorator_hooks key fn w :
  hooks (after (removeDecorator key fn) w) = hooks w.
Proof.
  rewrite removeDecorator_after.
  by destruct (unmakeDecorable_fields key (with_decorators (registry_remove key fn) w))
    as (_ & _ & -> & _).
Qed.


(** X7: [removeDecorator] never throws and removes one registration of
    the decorator, the earliest one: the decorators registered before it
    and after it keep their order, and the entry of the key goes when its
    last decorator has been removed.  Hooks and other keys are left
    alone. *)
Theorem removeDecorator_removes_first key fn w before later :
  decorators w !! key = Some (before ++ fn :: later) →
  fn ∉ before →
  ∃ w', removeDecorator key fn w = (Return tt, w')
        ∧ decorators w' !! key =
            (if bool_decide (before ++ later = []) then None else Some (before ++ later))
        ∧ (∀ k, k ≠ key → decorators w' !! k = decorators w !! k)
        ∧ hooks w' = hooks w.
Proof.
  intros Hds Hfirst. exists (after (removeDecorator key fn) w). split_and!.
  - rewrite removeDecorator_after. apply removeDecorator_run.
  - rewrite removeDecorator_decorators, registry_remove_key, Hds. cbv zeta.
    assert (fn ∈ before ++ fn :: later) as Hin
      by (apply elem_of_app; right; apply elem_of_cons; by left).
    rewrite (bool_decide_eq_true_2 _ Hin). by rewrite splice1_app_first.
  - intros k Hk. by rewrite removeDecorator_decorators, registry_remove_other.
  - apply removeDecorator_hooks.
Qed.

Lemma removeDecorator_removes_first_witness :
  ∃ w', removeDecorator "double" 10%nat Scenario.registered_twice = (Return tt, w')
        ∧ decorators w' !! "double" = Some [10%nat].
Proof.
  destruct (removeDecorator_removes_first "double" 10%nat Scenario.registered_twice
              [] [10%nat]) as (w' & Hrun & Hds & _);
    [reflexivity | apply not_elem_of_nil |].
  exists w'. split; [done|]. by rewrite Hds.
Defined.


(** ** Hooks: registration and removal *)

Lemma with_hooks_of_push_splice t hook r :
  hook ∉ hooks_of t r →
  with_hooks_of t (splice1 (indexOf hook (hooks_of t (with_hooks_of t (push hook) r))))
    (with_hooks_of t (push hook) r) = r.
Proof.
  intros Hnot. destruct r as [id ps qs], t; simpl in *; by rewrite splice1_push.
Qed.

Lemma hooks_of_push t hook r :
  hooks_of t (with_hooks_of t (push hook) r) = push hook (hooks_of t r).
Proof. by destruct t. Qed.

(** Removing the hook that has just been added gives the registry back. *)
Lemma hooks_remove_added t key hook w r1 :
  (∀ r, hooks w !! key = Some r → (hook ∉ hooks_of t r) ∧ (pre r ≠ [] ∨ post r ≠ [])) →
  hooks (hook_added t key hook w) !! key = Some r1 →
  hooks_remove t key hook r1 (hooks (hook_added t key hook w)) = hooks w.
Proof.
  intros Hold Hr1. apply map_eq. intros k.
  destruct (decide (k = key)) as [->|Hne];
    [|by rewrite hooks_remove_other, hook_added_other].
  unfold hooks_remove.
  assert (∃ r0, r1 = with_hooks_of t (push hook) r0 ∧ (hook ∉ hooks_of t r0)
                ∧ match hooks w !! key with
                  | Some r => r0 = r ∧ (pre r ≠ [] ∨ post r ≠ [])
                  | None => pre r0 = [] ∧ post r0 = []
                  end) as (r0 & -> & Hnot & Hcase).
  { revert Hr1. unfold hook_added. simpl. rewrite lookup_alter_eq.
    destruct (hooks w !! key) as [r|] eqn:Hr.
    - rewrite bool_decide_eq_true_2 by eauto. simpl. rewrite Hr. simpl. intros [= <-].
      destruct (Hold r eq_refl). eauto.
    - rewrite bool_decide_eq_false_2 by (by intros [? ?]). simpl.
      rewrite lookup_insert_eq. simpl. intros [= <-]. eexists. split; [done|].
      split; [|done]. destruct t; apply not_elem_of_nil. }
  assert (indexOf hook (hooks_of t (with_hooks_of t (push hook) r0)) ≠ -1) as Hidx.
  { rewrite indexOf_absent, hooks_of_push. intros Habs. apply Habs.
    apply elem_of_app. right. by apply list_elem_of_singleton. }
  remember (hooks (hook_added t key hook w)) as m eqn:Hm. clear Hm.
  cbv zeta. rewrite (bool_decide_eq_false_2 _ Hidx). cbn [negb].
  rewrite lookup_alter_eq, Hr1. cbn [fmap option_fmap option_map].
  rewrite with_hooks_of_push_splice by done.
  destruct (hooks w !! key) as [r|] eqn:Hr.
  - destruct Hcase as [-> Hne].
    assert (bool_decide (length (pre r) = 0%nat) && bool_decide (length (post r) = 0%nat)
            = false) as ->.
    { apply andb_false_iff. rewrite !bool_decide_eq_false, !length_zero. tauto. }
    rewrite lookup_alter_eq, Hr1. cbn [fmap option_fmap option_map].
    by rewrite with_hooks_of_push_splice.
  - destruct Hcase as [-> ->]. simpl. apply lookup_delete_eq.
Qed.

Lemma removeHook_after t key hook w r :
  hooks w !! key = Some r →
  removeHook t key hook w =
    (Return tt, after (unmakeDecorable key) (with_hooks (hooks_remove t key hook r) w)).
Proof. intros Hr. by rewrite removeHook_run, Hr. Qed.

Lemma hook_added_inherited t key hook w :
  inherited_method (hook_added t key hook w) = inherited_method w.
Proof. unfold hook_added. by destruct (negb _). Qed.

Lemma wrapper_eq w w' :
  __definition w = __definition w' → __deps w = __deps w' →
  __decoratedFns w = __decoratedFns w' → __facade w = __facade w' →
  decorators w = decorators w' → hooks w = hooks w' →
  allocated w = allocated w' → inherited_method w = inherited_method w' →
  w = w'.
Proof. destruct w, w'. simpl. by intros -> -> -> -> -> -> -> ->. Qed.

(** X9: [addHook] on a key of the function map, with a hook the key does
    not have, followed by the remover it returns gives the wrapper back:
    the same decorators, hooks, decorated keys, facade, dependencies and
    definition.  When the key had no other hook, a second call of the
    remover throws a [TypeError], since [removeHook] reads the hook record
    of the key, which is gone. *)
Theorem addHook_then_remover t key hook w :
  consistent w →
  key ∈ Object_keys (fns (__definition w)) →
  (∀ r, hooks w !! key = Some r → hook ∉ hooks_of t r) →
  ∃ rm w1 w2,
    addHook t key hook w = (Return rm, w1)
    ∧ run_remover rm w1 = (Return tt, w2)
    ∧ with_allocated (allocated w) w2 = w
    ∧ (hooks w !! key = None →
       run_remover rm w2 = (Throw (cannot_read_undefined (hookType_name t)), w2)).
Proof.
  intros [[Hnd Hagree] [Hfollows Hsub]] Hkey Habs.
  destruct (hook_added_key t key hook w) as (r1 & Hr1 & _).
  destruct (hook_added_fields t key hook w) as (HdF & Hdef & Hdec & Hfac).
  pose proof (hook_added_deps t key hook w) as Hdeps.
  pose proof (hook_added_inherited t key hook w) as Hinh.
  assert (hooks_remove t key hook r1 (hooks (hook_added t key hook w)) = hooks w) as Hback.
  { apply hooks_remove_added; [|done].
    intros r Hr. split; [by apply Habs|]. destruct Hagree as (_ & _ & Hne). eauto. }
  remember (hook_added t key hook w) as wa eqn:Hwa.
  set (w1 := after (__makeDecorable key) wa).
  destruct (makeDecorable_fields key wa) as (Hdef1 & Hdec1 & Hhooks1 & Hdeps1).
  fold w1 in Hdef1, Hdec1, Hhooks1, Hdeps1.
  set (w2 := after (unmakeDecorable key) (with_hooks (hooks_remove t key hook r1) w1)).
  assert (hooks w2 = hooks w) as Hhooks.
  { unfold w2.
    destruct (unmakeDecorable_fields key (with_hooks (hooks_remove t key hook r1) w1))
      as (_ & _ & -> & _). simpl. by rewrite Hhooks1. }
  exists (RemoveHook t key hook), w1, w2. split_and!.
  - rewrite addHook_run, (proj2 (includes_true _ _) Hkey). simpl. by rewrite <- Hwa.
  - simpl. apply removeHook_after. by rewrite Hhooks1.
  - destruct Hagree as (Hiff & _).
    unfold w2, w1, after.
    rewrite makeDecorable_run. rewrite Hdef, HdF.
    unfold Object_hasOwn. rewrite (bool_decide_eq_true_2 _ Hkey). simpl.
    rewrite orb_false_r.
    destruct (includes key (__decoratedFns w)) eqn:Hin.
    + rewrite unmakeDecorable_run. simpl. rewrite HdF, Hin, Hdec, Hback. simpl.
      apply includes_true, Hiff in Hin.
      assert (bool_decide (is_Some (decorators w !! key))
              || bool_decide (is_Some (hooks w !! key)) = true) as ->.
      { apply orb_true_iff. rewrite !bool_decide_eq_true. done. }
      apply wrapper_eq; simpl; by rewrite ?Hback.
    + rewrite unmakeDecorable_run. simpl. rewrite HdF, Hdec, Hdef, Hback.
      replace (includes key (push key (__decoratedFns w))) with true
        by (symmetry; apply includes_true, elem_of_app; right;
            by apply list_elem_of_singleton).
      apply includes_false in Hin as Hnot.
      assert (decorators w !! key = None ∧ hooks w !! key = None) as [Hd Hh].
      { destruct (decorators w !! key) eqn:Hd; [exfalso; apply Hnot, Hiff; eauto|].
        destruct (hooks w !! key) eqn:Hh; [exfalso; apply Hnot, Hiff; eauto|]. done. }
      rewrite Hd, Hh. simpl.
      apply wrapper_eq; simpl; rewrite ?Hback, ?Hfac, ?HdF; try done.
      * by apply splice1_push.
      * rewrite insert_insert_eq. apply insert_id.
        by rewrite (Hfollows key Hkey), Hin.
  - intros Hnone. simpl. rewrite removeHook_run. by rewrite Hhooks, Hnone.
Qed.

Lemma addHook_then_remover_witness :
  ∃ rm w1 w2,
    addHook Pre "double" 20%nat Sample.sample_wrapper = (Return rm, w1)
    ∧ run_remover rm w1 = (Return tt, w2)
    ∧ with_allocated 0%nat w2 = Sample.sample_wrapper
    ∧ run_remover rm w2 = (Throw (cannot_read_undefined "pre"), w2).
Proof.
  destruct (addHook_then_remover Pre "double" 20%nat Sample.sample_wrapper)
    as (rm & w1 & w2 & Hadd & Hremove & Hback & Hagain).
  - apply new_consistent. compute_done.
  - compute_done.
  - intros r Hr. vm_compute in Hr. discriminate.
  - exists rm, w1, w2. split_and!; [done | done | done |]. by apply Hagain.
Defined.


(** ** [decorateAll] *)

Lemma addDecorator_hooks key fn w : hooks (after (addDecorator key fn) w) = hooks w.
Proof.
  rewrite addDecorator_after. destruct (Object_hasOwn _ key); [|done].
  by destruct (makeDecorable_fields key (with_decorators (registry_add key fn) w))
    as (_ & _ & -> & _).
Qed.



Section DecorateAll.
Context {F : Functions}.


End DecorateAll.

(** ** The order of the hooks *)

Section HookOrder.
Context {F : Functions}.

Lemma call_hook_run t this args h (s : World User) :
  call_hook t this args h s =
    (match (hook_body h this args (user s)).1 with
     | Return _ => Return tt
     | Throw e => Throw e
     end,
     with_user (hook_body h this args (user s)).2
       (with_calls (push (HookCalled t h args)) s)).
Proof.
  unfold call_hook, bind, record_call, modify, run_user, ret. simpl.
  by destruct (hook_body h this args (user s)) as [[v|e] u].
Qed.

(** When every hook returns, all of them have been called, in order. *)
Lemma for_of_hooks_return t this args hs (s s' : World User) :
  for_of hs (call_hook t this args) s = (Return tt, s') →
  calls s' = calls s ++ hook_events t hs args ∧ reactions s' = reactions s.
Proof.
  revert s. induction hs as [|h hs IH]; intros s.
  - intros [= <-]. by rewrite app_nil_r.
  - simpl. unfold bind. rewrite call_hook_run.
    destruct (hook_body h this args (user s)) as [[v|e] u]; simpl; [|discriminate].
    intros Hrest. apply IH in Hrest as [-> ->]. simpl.
    unfold push. by rewrite <- app_assoc.
Qed.

(** When a hook throws, the hooks after it have not been called. *)
Lemma for_of_hooks_throw t this args hs (s s' : World User) e :
  for_of hs (call_hook t this args) s = (Throw e, s') →
  ∃ before h later,
    hs = before ++ h :: later
    ∧ calls s' = calls s ++ hook_events t (before ++ [h]) args
    ∧ reactions s' = reactions s.
Proof.
  revert s. induction hs as [|h hs IH]; intros s; [discriminate|].
  simpl. unfold bind. rewrite call_hook_run.
  destruct (hook_body h this args (user s)) as [[v|e'] u]; simpl.
  - intros Hrest. apply IH in Hrest as (before & h' & later & -> & -> & ->).
    exists (h :: before), h', later. simpl. unfold push.
    by rewrite <- app_assoc.
  - intros [= <- <-]. exists [], h, hs. by simpl.
Qed.

(** X12: a call through the hooks of a key that returns has called the
    pre-hooks in the order of their registration, then the command, and,
    unless the result is a promise, the post-hooks in the order of their
    registration, all with the same arguments.  The result is the one the
    command returned: what the hooks return is dropped.  For a promise the
    post-hooks are left to one reaction on it. *)
Theorem hooks_run_in_registration_order w key command r args (s s' : World User) result :
  hooks w !! key = Some r →
  hooked w key (call_command (Some command) w) args s = (Return result, s') →
  (∃ s1, (command_body command w args (user s1)).1 = Return result)
  ∧ (instanceof_Promise result = false →
     calls s' = calls s ++ hook_events Pre (pre r) args
                  ++ [CommandCalled command args] ++ hook_events Post (post r) args
     ∧ reactions s' = reactions s)
  ∧ (∀ fate, result = VPromise fate →
     calls s' = calls s ++ hook_events Pre (pre r) args ++ [CommandCalled command args]
     ∧ reactions s' =
         reactions s ++ [{| awaited := fate; hooked_key := key;
                            post_array := record_id r; hook_args := args |}]).
Proof.
  intros Hr. rewrite (hooked_run w key r) by done.
  destruct (for_of (pre r) (call_hook Pre w args) s) as [[[]|e] s1] eqn:Hpre;
    [|discriminate].
  apply for_of_hooks_return in Hpre as [Hcalls1 Hreactions1].
  rewrite call_command_run.
  destruct (command_body command w args (user s1)) as [[v|e] u] eqn:Hbody; simpl;
    [|discriminate].
  assert (∀ s2, s2 = with_user u (with_calls (push (CommandCalled command args)) s1) →
            calls s2 = calls s ++ hook_events Pre (pre r) args
                         ++ [CommandCalled command args]
            ∧ reactions s2 = reactions s) as Hcommand.
  { intros s2 ->. simpl. unfold push. by rewrite Hcalls1, Hreactions1, <- app_assoc. }
  destruct (Hcommand _ eq_refl) as [Hcalls2 Hreactions2].
  assert (∃ s1', (command_body command w args (user s1')).1 = Return v) as Hresult
    by (exists s1; by rewrite Hbody).
  destruct v;
    try (destruct (for_of (post r) (call_hook Post w args) _) as [[[]|e] s3] eqn:Hpost;
         [|discriminate];
         apply for_of_hooks_return in Hpost as [Hcalls3 Hreactions3];
         intros [= <- <-]; split_and!; [done | | by intros fate [=]];
         intros _; rewrite Hcalls3, Hreactions3, Hcalls2, Hreactions2;
         by rewrite <- !app_assoc).
  intros [= <- <-]. split_and!; [done | discriminate |].
  intros fate' [= <-]. simpl. unfold push. by rewrite Hcalls1, Hreactions1, <- app_assoc.
Qed.

(** X13: when a pre-hook of a key throws, the call throws the same error
    and neither the pre-hooks registered after it, nor the command, nor
    any post-hook has been called, and no reaction has been registered. *)
Theorem throwing_pre_hook_skips_the_command w key command r args (s s1 : World User) e :
  hooks w !! key = Some r →
  for_of (pre r) (call_hook Pre w args) s = (Throw e, s1) →
  hooked w key (call_command (Some command) w) args s = (Throw e, s1)
  ∧ ∃ before h later,
      pre r = before ++ h :: later
      ∧ calls s1 = calls s ++ hook_events Pre (before ++ [h]) args
      ∧ reactions s1 = reactions s.
Proof.
  intros Hr Hpre. split.
  - rewrite (hooked_run w key r) by done. by rewrite Hpre.
  - by apply for_of_hooks_throw in Hpre.
Qed.

End HookOrder.

Lemma hooks_run_in_registration_order_witness :
  ∃ s',
    hooked HookScenario.around_double "double"
      (call_command (Some 0%nat) HookScenario.around_double) HookScenario.five
      Sample.empty_world = (Return (VNumber 10), s')
    ∧ calls s' =
        [HookCalled Pre 20 HookScenario.five; HookCalled Pre 22 HookScenario.five;
         CommandCalled 0 HookScenario.five;
         HookCalled Post 23 HookScenario.five; HookCalled Post 24 HookScenario.five].
Proof.
  eexists. split; [vm_compute; reflexivity|].
  edestruct (hooks_run_in_registration_order HookScenario.around_double "double" 0%nat
               {| record_id := 0; pre := [20; 22]%nat; post := [23; 24]%nat |}
               HookScenario.five Sample.empty_world) as (_ & Hsync & _);
    [vm_compute; reflexivity | vm_compute; reflexivity |].
  exact (proj1 (Hsync eq_refl)).
Defined.

Lemma throwing_pre_hook_skips_the_command_witness :
  hooked HookScenario.throwing_pre_hook "double"
    (call_command (Some 0%nat) HookScenario.throwing_pre_hook) HookScenario.five
    Sample.empty_world
  = (Throw Sample.boom,
     {| user := 1%nat;
        calls := [HookCalled Pre 20 HookScenario.five; HookCalled Pre 21 HookScenario.five];
        reactions := [] |}).
Proof.
  refine (proj1 (throwing_pre_hook_skips_the_command HookScenario.throwing_pre_hook
                   "double" 0%nat {| record_id := 0; pre := [20; 21; 22]%nat; post := [] |}
                   HookScenario.five Sample.empty_world _ _ _ _)).
  - vm_compute. reflexivity.
  - vm_compute. reflexivity.
Defined.
(** ** Post-hooks of a call that is in flight *)

Section InFlight.
Context {F : Functions}.

Lemma settle_promises_single this rc (s : World User) :
  reactions s = [] →
  settle_promises this (with_reactions (push rc) s) =
    match awaited rc with
    | Fulfils _ =>
        match for_of (post_array_contents this rc) (call_hook Post this (hook_args rc)) s with
        | (Return _, s') => s'
        | (Throw e, s') => with_calls (push (UnhandledRejection e)) s'
        end
    | Rejects reason => with_calls (push (UnhandledRejection reason)) s
    | Pends => with_reactions (push rc) s
    end.
Proof.
  intros Hs. unfold settle_promises, with_reactions, push. simpl. rewrite Hs. simpl.
  unfold run_reaction, is_pending.
  destruct (awaited rc) eqn:Hfate; simpl.
  - rewrite filter_cons, decide_False by (by rewrite Hfate). rewrite filter_nil.
    replace {| user := user s; calls := calls s; reactions := [] |} with s
      by (by rewrite <- Hs).
    by destruct (for_of (post_array_contents this rc) (call_hook Post this (hook_args rc)) s)
      as [[[]|e] s'].
  - rewrite filter_cons, decide_False by (by rewrite Hfate). rewrite filter_nil.
    unfold throw, with_calls. simpl. by rewrite Hs.
  - rewrite filter_cons, decide_True by (by rewrite Hfate). done.
Qed.

Lemma addHook_record t key hook w r :
  hooks w !! key = Some r →
  key ∈ Object_keys (fns (__definition w)) →
  hooks (after (addHook t key hook) w) !! key = Some (with_hooks_of t (push hook) r).
Proof.
  intros Hr Hkey. unfold after at 1.
  rewrite addHook_run, (proj2 (includes_true _ _) Hkey). simpl.
  destruct (makeDecorable_fields key (hook_added t key hook w)) as (_ & _ & -> & _).
  unfold hook_added. rewrite bool_decide_eq_true_2 by eauto. simpl.
  by rewrite lookup_alter_eq, Hr.
Qed.

Lemma removeHook_record t key hook w r :
  hooks w !! key = Some r →
  hook ∈ hooks_of t r →
  hooks (after (removeHook t key hook) w) !! key =
    (let r' := with_hooks_of t (splice1 (indexOf hook (hooks_of t r))) r in
     if bool_decide (pre r' = []) && bool_decide (post r' = []) then None else Some r').
Proof.
  intros Hr Hin. unfold after at 1. rewrite removeHook_run, Hr. simpl.
  destruct (unmakeDecorable_fields key (with_hooks (hooks_remove t key hook r) w))
    as (_ & _ & -> & _). simpl.
  unfold hooks_remove.
  assert (indexOf hook (hooks_of t r) ≠ -1) as Hidx by (by rewrite indexOf_absent; intros ?).
  rewrite (bool_decide_eq_false_2 _ Hidx). simpl.
  rewrite lookup_alter_eq, Hr. simpl.
  set (r' := with_hooks_of t _ r).
  replace (bool_decide (length (pre r') = 0%nat)) with (bool_decide (pre r' = []))
    by (apply bool_decide_ext; by rewrite length_zero).
  replace (bool_decide (length (post r') = 0%nat)) with (bool_decide (post r' = []))
    by (apply bool_decide_ext; by rewrite length_zero).
  destruct (bool_decide (pre r' = []) && bool_decide (post r' = [])).
  - apply lookup_delete_eq.
  - by rewrite lookup_alter_eq, Hr.
Qed.

(** X14: the reaction that a call leaves on a promise reads the
    post-hooks of the key when the promise fulfils, not when the call was
    made: a post-hook added to the key in the meantime is run, after the
    others, and a post-hook removed in the meantime is not. *)
Theorem post_hooks_are_read_at_fulfilment w key command r args (s s1 s2 : World User)
    v hook :
  hooks w !! key = Some r →
  key ∈ Object_keys (fns (__definition w)) →
  reactions s = [] →
  for_of (pre r) (call_hook Pre w args) s = (Return tt, s1) →
  call_command (Some command) w args s1 = (Return (VPromise (Fulfils v)), s2) →
  (hooked w key (call_command (Some command) w) args s).1 = Return (VPromise (Fulfils v))
  ∧ settle_promises (after (addHook Post key hook) w)
      (hooked w key (call_command (Some command) w) args s).2 =
      match for_of (post r ++ [hook])
              (call_hook Post (after (addHook Post key hook) w) args) s2 with
      | (Return _, s3) => s3
      | (Throw e, s3) => with_calls (push (UnhandledRejection e)) s3
      end
  ∧ (hook ∈ post r →
     settle_promises (after (removeHook Post key hook) w)
       (hooked w key (call_command (Some command) w) args s).2 =
       match for_of (splice1 (indexOf hook (post r)) (post r))
               (call_hook Post (after (removeHook Post key hook) w) args) s2 with
       | (Return _, s3) => s3
       | (Throw e, s3) => with_calls (push (UnhandledRejection e)) s3
       end).
Proof.
  intros Hr Hkey Hs Hpre Hcommand.
  assert (reactions s2 = []) as Hs2.
  { apply for_of_hooks_return in Hpre as [_ Hr1].
    rewrite call_command_run in Hcommand. injection Hcommand as _ <-. simpl.
    by rewrite Hr1. }
  rewrite (hooked_run w key r) by done. rewrite Hpre, Hcommand. simpl.
  split_and!; [done | |].
  - rewrite settle_promises_single by done. simpl.
    unfold post_array_contents. simpl.
    rewrite (addHook_record Post key hook w r) by done. simpl.
    by rewrite bool_decide_eq_true_2.
  - intros Hin. rewrite settle_promises_single by done. simpl.
    unfold post_array_contents. simpl.
    rewrite (removeHook_record Post key hook w r) by done. simpl.
    destruct (bool_decide (pre r = []) && bool_decide (splice1 _ (post r) = [])) eqn:Hempty.
    + apply andb_true_iff in Hempty as [_ Hpost]. apply bool_decide_eq_true in Hpost.
      by rewrite Hpost.
    + simpl. by rewrite bool_decide_eq_true_2.
Qed.

End InFlight.

Lemma post_hooks_are_read_at_fulfilment_witness :
  calls (settle_promises (after (addHook Post "echo" 25%nat) Scenario.with_post_hooks)
           (hooked Scenario.with_post_hooks "echo"
              (call_command (Some 1%nat) Scenario.with_post_hooks) HookScenario.five
              Sample.empty_world).2)
  = [CommandCalled 1 HookScenario.five; HookCalled Post 20 HookScenario.five;
     HookCalled Post 25 HookScenario.five]
  ∧ calls (settle_promises (after (removeHook Post "echo" 20%nat) Scenario.with_post_hooks)
             (hooked Scenario.with_post_hooks "echo"
                (call_command (Some 1%nat) Scenario.with_post_hooks) HookScenario.five
                Sample.empty_world).2)
    = [CommandCalled 1 HookScenario.five].
Proof.
  split.
  - destruct (post_hooks_are_read_at_fulfilment Scenario.with_post_hooks "echo" 1%nat
                 {| record_id := 0; pre := []; post := [20%nat] |} HookScenario.five
                 Sample.empty_world Sample.empty_world
                 {| user := 0%nat; calls := [CommandCalled 1 HookScenario.five];
                    reactions := [] |} (VNumber 5) 25%nat) as (_ & Hadded & _);
      [vm_compute; reflexivity | compute_done | reflexivity | reflexivity
      | vm_compute; reflexivity |].
    rewrite Hadded. vm_compute. reflexivity.
  - destruct (post_hooks_are_read_at_fulfilment Scenario.with_post_hooks "echo" 1%nat
                 {| record_id := 0; pre := []; post := [20%nat] |} HookScenario.five
                 Sample.empty_world Sample.empty_world
                 {| user := 0%nat; calls := [CommandCalled 1 HookScenario.five];
                    reactions := [] |} (VNumber 5) 20%nat) as (_ & _ & Hremoved);
      [vm_compute; reflexivity | compute_done | reflexivity | reflexivity
      | vm_compute; reflexivity |].
    rewrite Hremoved by (simpl; left). vm_compute. reflexivity.
Defined.
(** ** The hook lists of a key *)

Lemma addHook_decorators t key hook w :
  decorators (after (addHook t key hook) w) = decorators w.
Proof.
  unfold after at 1. rewrite addHook_run.
  destruct (negb (includes key _)); [done|]. simpl.
  destruct (makeDecorable_fields key (hook_added t key hook w)) as (_ & -> & _).
  by destruct (hook_added_fields t key hook w) as (_ & _ & -> & _).
Qed.

Lemma removeHook_decorators t key hook w :
  decorators (after (removeHook t key hook) w) = decorators w.
Proof.
  unfold after at 1. rewrite removeHook_run.
  destruct (hooks w !! key) as [r|]; [|done]. simpl.
  by destruct (unmakeDecorable_fields key (with_hooks (hooks_remove t key hook r) w))
    as (_ & -> & _).
Qed.

(** X15: [addHook] on a key of the function map puts the hook at the end
    of the list of its phase, after the hooks the key has, which keeps
    the order of registration; it does not look for the hook in the list,
    so a hook registered twice is listed twice.  The list of the other
    phase, the hooks of other keys and the decorators stay as they
    were. *)
Theorem addHook_appends t key hook w :
  key ∈ Object_keys (fns (__definition w)) →
  ∃ w1 r1,
    addHook t key hook w = (Return (RemoveHook t key hook), w1)
    ∧ hooks w1 !! key = Some r1
    ∧ hooks_of t r1 = default [] (hooks_of t <$> hooks w !! key) ++ [hook]
    ∧ (∀ t', t' ≠ t → hooks_of t' r1 = default [] (hooks_of t' <$> hooks w !! key))
    ∧ (∀ k, k ≠ key → hooks w1 !! k = hooks w !! k)
    ∧ decorators w1 = decorators w.
Proof.
  intros Hkey.
  set (r0 := default {| record_id := allocated w; pre := []; post := [] |} (hooks w !! key)).
  exists (after (addHook t key hook) w), (with_hooks_of t (push hook) r0).
  assert (hooks (after (addHook t key hook) w) = hooks (hook_added t key hook w)) as Hhooks.
  { unfold after at 1. rewrite addHook_run, (proj2 (includes_true _ _) Hkey). simpl.
    by destruct (makeDecorable_fields key (hook_added t key hook w)) as (_ & _ & -> & _). }
  split_and!.
  - unfold after. rewrite addHook_run, (proj2 (includes_true _ _) Hkey). reflexivity.
  - rewrite Hhooks. unfold hook_added, r0. simpl. rewrite lookup_alter_eq.
    destruct (hooks w !! key) as [r|] eqn:Hr.
    + rewrite bool_decide_eq_true_2 by eauto. simpl. by rewrite Hr.
    + rewrite bool_decide_eq_false_2 by (by intros [? ?]). simpl.
      by rewrite lookup_insert_eq.
  - unfold r0. destruct (hooks w !! key) as [r|]; by destruct t.
  - intros t' Hne. unfold r0. destruct (hooks w !! key) as [r|]; by destruct t, t'.
  - intros k Hne. rewrite Hhooks. by apply hook_added_other.
  - apply addHook_decorators.
Qed.

Lemma addHook_appends_witness :
  ∃ w1 r1,
    addHook Post "double" 20%nat Scenario.with_post_hooks
      = (Return (RemoveHook Post "double" 20%nat), w1)
    ∧ hooks w1 !! "double" = Some r1
    ∧ hooks_of Post r1 = [20%nat; 20%nat].
Proof.
  destruct (addHook_appends Post "double" 20%nat Scenario.with_post_hooks)
    as (w1 & r1 & Hrun & Hr1 & Hpost & _); [compute_done|].
  exists w1, r1. split_and!; [done | done |]. by rewrite Hpost.
Defined.

(** X16: on a key that has a hook record, [removeHook] takes out of the
    list of its phase one registration of the hook, the earliest one, and
    keeps the order of the others; the record goes when both of its lists
    are empty.  The list of the other phase, the hooks of other keys and
    the decorators stay as they were. *)
Theorem removeHook_removes_first t key hook w r before later :
  hooks w !! key = Some r →
  hooks_of t r = before ++ hook :: later →
  hook ∉ before →
  ∃ w',
    removeHook t key hook w = (Return tt, w')
    ∧ hooks w' !! key =
        (let r' := with_hooks_of t (λ _, before ++ later) r in
         if bool_decide (pre r' = []) && bool_decide (post r' = []) then None else Some r')
    ∧ (∀ k, k ≠ key → hooks w' !! k = hooks w !! k)
    ∧ decorators w' = decorators w.
Proof.
  intros Hr Hlist Hfirst. exists (after (removeHook t key hook) w).
  assert (hook ∈ hooks_of t r) as Hin
    by (rewrite Hlist; apply elem_of_app; right; apply elem_of_cons; by left).
  split_and!.
  - unfold after. by rewrite removeHook_run, Hr.
  - rewrite (removeHook_record t key hook w r) by done.
    assert (with_hooks_of t (splice1 (indexOf hook (hooks_of t r))) r
            = with_hooks_of t (λ _, before ++ later) r) as ->; [|done].
    pose proof (splice1_app_first hook before later Hfirst) as Hsplice.
    rewrite <- Hlist in Hsplice. destruct t; simpl in *; by rewrite Hsplice.
  - intros k Hne. unfold after at 1. rewrite removeHook_run, Hr. simpl.
    destruct (unmakeDecorable_fields key (with_hooks (hooks_remove t key hook r) w))
      as (_ & _ & -> & _). simpl. by apply hooks_remove_other.
  - apply removeHook_decorators.
Qed.

Lemma removeHook_removes_first_witness :
  ∃ w',
    removeHook Pre "double" 20%nat HookScenario.around_double = (Return tt, w')
    ∧ hooks w' !! "double"
      = Some {| record_id := 0; pre := [22%nat]; post := [23%nat; 24%nat] |}.
Proof.
  destruct (removeHook_removes_first Pre "double" 20%nat HookScenario.around_double
              {| record_id := 0; pre := [20; 22]%nat; post := [23; 24]%nat |}
              [] [22%nat]) as (w' & Hrun & Hr' & _);
    [vm_compute; reflexivity | reflexivity | apply not_elem_of_nil |].
  exists w'. split; [done|]. by rewrite Hr'.
Defined.

(** ** Successive updates of the dependencies *)

Lemma set_prop_keys k v props :
  (set_prop k v props).*1 = if bool_decide (k ∈ props.*1) then props.*1 else props.*1 ++ [k].
Proof.
  induction props as [|[k' v'] props IH]; [done|].
  cbn [set_prop]. rewrite fmap_cons. cbn [fst].
  destruct (decide (k' = k)) as [->|Hne].
  - rewrite bool_decide_eq_true_2 by done.
    by rewrite bool_decide_eq_true_2 by (by left).
  - rewrite bool_decide_eq_false_2 by done. rewrite fmap_cons, IH. cbn [fst].
    destruct (decide (k ∈ props.*1)) as [Hin|Hnot].
    + rewrite bool_decide_eq_true_2 by done.
      by rewrite bool_decide_eq_true_2 by (by right).
    + rewrite bool_decide_eq_false_2 by done.
      rewrite bool_decide_eq_false_2; [done|].
      intros [?|?]%elem_of_cons; congruence.
Qed.

Lemma set_prop_NoDup k v props : NoDup props.*1 → NoDup (set_prop k v props).*1.
Proof.
  intros Hnd. rewrite set_prop_keys. case_bool_decide as Hin; [done|].
  apply NoDup_app. split_and!; [done | | apply NoDup_singleton].
  intros k' Hk' ->%list_elem_of_singleton. done.
Qed.

Lemma spread_into_NoDup target source :
  NoDup target.*1 → NoDup (spread_into target source).*1.
Proof.
  unfold spread_into. generalize (own_enumerable source). intros kvs. revert target.
  induction kvs as [|[k v] kvs IH]; intros target Hnd; simpl; [done|].
  apply IH. by apply set_prop_NoDup.
Qed.

(** X17: successive calls of [updateDependencies] accumulate: a property
    has the value given by the latest update that names it, and the value
    it had before when no update names it.  The merged dependencies are
    again an object with one value for each property name. *)
Theorem updateDependencies_accumulates w first second :
  truthy first = true → truthy second = true →
  well_formed_object (__deps w) → well_formed_object first → well_formed_object second →
  ∃ w2 merged,
    (updateDependencies first ;; updateDependencies second)%js w = (Return tt, w2)
    ∧ __deps w2 = VObject merged
    ∧ dependencies (__definition w2) = VObject merged
    ∧ well_formed_object (__deps w2)
    ∧ ∀ k, get_prop k merged =
             match get_prop k (own_enumerable second) with
             | Some v => Some v
             | None =>
                 match get_prop k (own_enumerable first) with
                 | Some v => Some v
                 | None => get_prop k (own_enumerable (__deps w))
                 end
             end.
Proof.
  intros Hfirst Hsecond Hdeps Hwf1 Hwf2.
  set (merged1 := spread_into (spread_into [] (__deps w)) first).
  set (merged2 := spread_into (spread_into [] (VObject merged1)) second).
  exists (with_definition (set_dependencies (VObject merged2) (__definition w))
            (with_deps (VObject merged2) w)), merged2.
  assert (NoDup merged1.*1) as Hnd1 by (do 2 apply spread_into_NoDup; apply NoDup_nil_2).
  split_and!.
  - unfold bind, updateDependencies, setDependencies. rewrite Hfirst, Hsecond. reflexivity.
  - done.
  - done.
  - simpl. unfold well_formed_object. simpl. do 2 apply spread_into_NoDup. apply NoDup_nil_2.
  - intros k. unfold merged2. rewrite get_prop_spread_into by done.
    destruct (get_prop k (own_enumerable second)); [done|].
    rewrite get_prop_spread_into by done. simpl.
    replace (match get_prop k merged1 with Some v => Some v | None => get_prop k [] end)
      with (get_prop k merged1) by (by destruct (get_prop k merged1)).
    unfold merged1. rewrite get_prop_spread_into by done.
    destruct (get_prop k (own_enumerable first)); [done|].
    rewrite get_prop_spread_into by done.
    by destruct (get_prop k (own_enumerable (__deps w))).
Qed.

Lemma updateDependencies_accumulates_witness :
  ∃ w2,
    (updateDependencies (VObject [("n", VNumber 1)]) ;;
     updateDependencies (VObject [("n", VNumber 2); ("m", VNumber 3)]))%js
      Sample.sample_wrapper = (Return tt, w2)
    ∧ __deps w2 = VObject [("foo", VString "bar"); ("n", VNumber 2); ("m", VNumber 3)].
Proof.
  destruct (updateDependencies_accumulates Sample.sample_wrapper
              (VObject [("n", VNumber 1)]) (VObject [("n", VNumber 2); ("m", VNumber 3)]))
    as (w2 & merged & Hrun & Hdeps & _); [reflexivity | reflexivity | compute_done..|].
  exists w2. split; [done|]. vm_compute in Hrun. by injection Hrun as <-.
Defined.
(** ** A new decorator wraps the chain *)

Section Wrap.
Context {F : Functions}.


End Wrap.


(** ** The remover of [decorateAll] *)

Lemma undecorated_each_absent fn keys w :
  registries_agree w →
  (∀ key ds, decorators w !! key = Some ds → fn ∉ ds) →
  undecorated_each fn keys w = w.
Proof.
  intros Hagree Habs. induction keys as [|key keys IH]; [done|].
  rewrite undecorated_each_cons.
  assert (after (removeDecorator key fn) w = w) as ->; [|done].
  unfold after. rewrite removeDecorator_absent; [done | done |]. apply Habs.
Qed.

(** X19: the remover that [decorateAll] returns never throws, whenever it
    is called, and once the decorator is registered under no key, as after
    a first call that has undone [decorateAll], calling it changes
    nothing. *)
Theorem decorateAll_remover_never_throws fn keys w :
  (∃ w', run_remover (RemoveAll ((λ key, RemoveDecorator key fn) <$> keys)) w
         = (Return tt, w'))
  ∧ (registries_agree w →
     (∀ key ds, decorators w !! key = Some ds → fn ∉ ds) →
     run_remover (RemoveAll ((λ key, RemoveDecorator key fn) <$> keys)) w = (Return tt, w)).
Proof.
  split.
  - eexists. apply run_remover_each.
  - intros Hagree Habs. rewrite run_remover_each. by rewrite undecorated_each_absent.
Qed.

Lemma decorateAll_remover_never_throws_witness :
  run_remover (RemoveAll ((λ key, RemoveDecorator key 12%nat) <$> ["double"; "echo"]))
    Sample.sample_wrapper
  = (Return tt, Sample.sample_wrapper).
Proof.
  refine (proj2 (decorateAll_remover_never_throws 12%nat ["double"; "echo"]
                   Sample.sample_wrapper) _ _).
  - apply new_registries_ok.
  - intros key ds Hds.
    change (decorators Sample.sample_wrapper) with (∅ : gmap Key (list FnRef)) in Hds.
    by rewrite lookup_empty in Hds.
Defined.
(** ** Hook records that have been deleted *)

Lemma makeDecorable_allocated key w :
  allocated (after (__makeDecorable key) w) = allocated w.
Proof. unfold after. rewrite makeDecorable_run. simpl. by destruct (_ || _). Qed.

Lemma unmakeDecorable_allocated key w :
  allocated (after (unmakeDecorable key) w) = allocated w.
Proof. unfold after. rewrite unmakeDecorable_run. simpl. by destruct (_ || _). Qed.

Lemma record_id_with_hooks_of t f r : record_id (with_hooks_of t f r) = record_id r.
Proof. by destruct t. Qed.

Lemma hooks_remove_record_id t key hook r (m : gmap Key HookRecord) r' :
  m !! key = Some r → hooks_remove t key hook r m !! key = Some r' →
  record_id r' = record_id r.
Proof.
  intros Hr. unfold hooks_remove.
  set (m1 := if negb _ then _ else m).
  assert (∃ r1, m1 !! key = Some r1 ∧ record_id r1 = record_id r) as (r1 & Hr1 & Hid).
  { unfold m1. destruct (negb _); [|eauto].
    rewrite lookup_alter_eq, Hr. simpl. eexists. split; [done|].
    apply record_id_with_hooks_of. }
  rewrite Hr1. destruct (_ && _).
  - by rewrite lookup_delete_eq.
  - rewrite Hr1. by intros [= <-].
Qed.

Lemma addDecorator_ids_fresh key fn w : ids_fresh w → ids_fresh (after (addDecorator key fn) w).
Proof.
  intros Hw k r. rewrite addDecorator_hooks.
  rewrite addDecorator_after. destruct (Object_hasOwn _ key); [|apply Hw].
  rewrite makeDecorable_allocated. apply Hw.
Qed.

Lemma removeDecorator_ids_fresh key fn w :
  ids_fresh w → ids_fresh (after (removeDecorator key fn) w).
Proof.
  intros Hw k r. rewrite removeDecorator_hooks, removeDecorator_after.
  rewrite unmakeDecorable_allocated. apply Hw.
Qed.

Lemma addHook_ids_fresh t key hook w : ids_fresh w → ids_fresh (after (addHook t key hook) w).
Proof.
  intros Hw k r. unfold after at 1 2. rewrite addHook_run.
  destruct (negb (includes key _)); [apply Hw|]. simpl.
  rewrite makeDecorable_allocated.
  destruct (makeDecorable_fields key (hook_added t key hook w)) as (_ & _ & -> & _).
  destruct (decide (k = key)) as [->|Hne].
  - unfold hook_added. simpl. rewrite lookup_alter_eq.
    destruct (hooks w !! key) as [r0|] eqn:Hr0.
    + rewrite bool_decide_eq_true_2 by eauto. simpl. rewrite Hr0. simpl.
      intros [= <-]. rewrite record_id_with_hooks_of. by apply (Hw key).
    + rewrite bool_decide_eq_false_2 by (by intros [? ?]). simpl.
      rewrite lookup_insert_eq. simpl. intros [= <-].
      rewrite record_id_with_hooks_of. simpl. lia.
  - rewrite hook_added_other by done. intros Hr. apply Hw in Hr.
    unfold hook_added. destruct (negb _); simpl; lia.
Qed.

Lemma removeHook_ids_fresh t key hook w :
  ids_fresh w → ids_fresh (after (removeHook t key hook) w).
Proof.
  intros Hw k r. unfold after at 1 2. rewrite removeHook_run.
  destruct (hooks w !! key) as [r0|] eqn:Hr0; [|apply Hw]. simpl.
  rewrite unmakeDecorable_allocated.
  destruct (unmakeDecorable_fields key (with_hooks (hooks_remove t key hook r0) w))
    as (_ & _ & -> & _). simpl.
  destruct (decide (k = key)) as [->|Hne].
  - intros Hr. rewrite (hooks_remove_record_id t key hook r0 (hooks w) r Hr0 Hr).
    by apply (Hw key).
  - rewrite hooks_remove_other by done. apply Hw.
Qed.

Lemma run_action_ids_fresh a w : ids_fresh w → ids_fresh (after (run_action a) w).
Proof.
  intros Hw. destruct a as [op|newDeps|newDeps|key]; simpl.
  - apply preserved_run_operation;
      auto using addDecorator_ids_fresh, removeDecorator_ids_fresh, addHook_ids_fresh,
        removeHook_ids_fresh.
  - rewrite setDependencies_after. by destruct (truthy newDeps).
  - rewrite updateDependencies_after. destruct (truthy newDeps); [|done].
    rewrite setDependencies_after. by destruct (truthy _).
  - intros k r. rewrite unmakeDecorable_allocated.
    destruct (unmakeDecorable_fields key w) as (_ & _ & -> & _). apply Hw.
Qed.

Lemma reached_ids_fresh definition SuperClass w0 actions :
  createDapi definition SuperClass = Return w0 → ids_fresh (reached w0 actions).
Proof.
  intros (c & _ & -> & _)%createDapi_new.
  induction actions as [|a actions IH] using rev_ind.
  - intros k r. simpl. by rewrite lookup_empty.
  - rewrite reached_snoc. by apply run_action_ids_fresh.
Qed.

Section Deleted.
Context {F : Functions}.

(** X20: the reaction that a call leaves on a promise holds on to the
    post array of the hook record the key had at the time of the call.
    When the last hook of the key is removed while the call is in flight,
    the record is deleted; a post-hook added afterwards goes to a new
    record, and the call in flight does not run it when its promise
    fulfils, although the next call of the key does find it. *)
Theorem deleted_record_is_not_revived definition SuperClass w0 actions key command r
    args (s s2 : World User) v hook hook' :
  createDapi definition SuperClass = Return w0 →
  key ∈ Object_keys (fns (__definition (reached w0 actions))) →
  hooks (reached w0 actions) !! key = Some r →
  pre r = [] → post r = [hook] →
  reactions s = [] →
  call_command (Some command) (reached w0 actions) args s
    = (Return (VPromise (Fulfils v)), s2) →
  ∃ r',
    hooks (after (addHook Post key hook')
             (after (removeHook Post key hook) (reached w0 actions))) !! key = Some r'
    ∧ post r' = [hook']
    ∧ settle_promises
        (after (addHook Post key hook')
           (after (removeHook Post key hook) (reached w0 actions)))
        (hooked (reached w0 actions) key
           (call_command (Some command) (reached w0 actions)) args s).2 = s2.
Proof.
  intros Hnew Hkey Hr Hpre Hpost Hs Hcommand.
  pose proof (reached_ids_fresh definition SuperClass w0 actions Hnew key r Hr) as Hfresh.
  set (w := reached w0 actions) in *.
  set (w1 := after (removeHook Post key hook) w).
  assert (hooks w1 !! key = None) as Hgone.
  { unfold w1. rewrite (removeHook_record Post key hook w r Hr)
      by (simpl; rewrite Hpost; by left).
    cbv zeta.
    assert (with_hooks_of Post (splice1 (indexOf hook (hooks_of Post r))) r
            = {| record_id := record_id r; pre := []; post := [] |}) as ->; [|done].
    simpl. rewrite Hpre, Hpost. f_equal.
    apply (splice1_app_first hook [] []), not_elem_of_nil. }
  assert (allocated w1 = allocated w) as Halloc.
  { unfold w1. unfold after at 1. rewrite removeHook_run, Hr. cbn [snd].
    by rewrite unmakeDecorable_allocated. }
  assert (key ∈ Object_keys (fns (__definition w1))) as Hkey1
    by (unfold w1; by rewrite removeHook_definition).
  set (w2 := after (addHook Post key hook') w1).
  assert (hooks w2 !! key
          = Some {| record_id := allocated w; pre := []; post := [hook'] |}) as Hr2.
  { unfold w2, after. rewrite addHook_run, (proj2 (includes_true _ _) Hkey1). simpl.
    destruct (makeDecorable_fields key (hook_added Post key hook' w1)) as (_ & _ & -> & _).
    unfold hook_added. rewrite bool_decide_eq_false_2 by (rewrite Hgone; by intros [? ?]).
    simpl. rewrite lookup_alter_eq, lookup_insert_eq. simpl. by rewrite Halloc. }
  eexists. split_and!; [done | done |].
  assert (reactions s2 = []) as Hs2.
  { rewrite call_command_run in Hcommand. injection Hcommand as _ <-. by simpl. }
  rewrite (hooked_run w key r) by done. rewrite Hpre.
  change (for_of [] (call_hook Pre w args) s) with (Return tt, s).
  cbv beta iota. rewrite Hcommand. cbn [snd].
  rewrite settle_promises_single by done. simpl.
  unfold post_array_contents. simpl. rewrite Hr2. simpl.
  rewrite bool_decide_eq_false_2 by lia. done.
Qed.

End Deleted.

Lemma deleted_record_is_not_revived_witness :
  ∃ w2,
    w2 = after (addHook Post "echo" 25%nat)
           (after (removeHook Post "echo" 20%nat)
              (reached Sample.sample_wrapper [Registration (OpAddHook Post "echo" 20%nat)]))
    ∧ (post <$> hooks w2 !! "echo") = Some [25%nat]
    ∧ calls (settle_promises w2
               (hooked (reached Sample.sample_wrapper
                          [Registration (OpAddHook Post "echo" 20%nat)]) "echo"
                  (call_command (Some 1%nat)
                     (reached Sample.sample_wrapper
                        [Registration (OpAddHook Post "echo" 20%nat)]))
                  HookScenario.five Sample.empty_world).2)
      = [CommandCalled 1 HookScenario.five].
Proof.
  destruct (deleted_record_is_not_revived Sample.sample_definition Sample.sample_methods
              Sample.sample_wrapper [Registration (OpAddHook Post "echo" 20%nat)]
              "echo" 1%nat {| record_id := 0; pre := []; post := [20%nat] |}
              HookScenario.five Sample.empty_world
              {| user := 0%nat; calls := [CommandCalled 1 HookScenario.five];
                 reactions := [] |} (VNumber 5) 20%nat 25%nat)
    as (r' & Hr' & Hpost' & Hsettle);
    [reflexivity | compute_done | vm_compute; reflexivity | reflexivity | reflexivity
    | reflexivity | vm_compute; reflexivity |].
  eexists. split; [reflexivity|]. split.
  - by rewrite Hr', <- Hpost'.
  - by rewrite Hsettle.
Defined.
